(** * Crashify360: the total-loss decision core

    A shallow embedding of [config.py], [validator.py] and
    [valuation_engine.py], and the properties of the validation gate, the
    threshold arithmetic and the batch runner; with them the decision store
    of [data_storage.py] and the commands of [main.py] that run the engine
    and read the store.

    Conventions of the embedding.
    - A Python [str] is a [string]; the model covers ASCII text, so
      [str.strip], [str.upper] and [str.lower] act on the ASCII whitespace
      and letters.
    - A Python [float] is a [pyfloat]: a rational, an infinity or NaN.
      Comparisons and the special values follow IEEE 754 as Python exposes
      them (every comparison with NaN is false, division by zero raises);
      arithmetic on finite values is exact, rounding is not modelled.
    - A call that may raise returns a [result]; [try]/[except] is [try_except].
    - f-strings are kept as message templates together with the values they
      interpolate; their rendering to text is not modelled.
    - Writes to the audit logger are not modelled.
    - The storage file is a value passed through the methods of the store:
      missing, no JSON text, or a document; a write succeeds, and what is
      read back is what was written. Clock readings are arguments. *)

From Stdlib Require Import ZArith QArith Qcanon Lia Lqa Ascii String.
From Stdlib Require DecimalString DecimalNat.
From stdpp Require Import base option list strings gmap numbers.


(** ** The Python runtime the three modules rely on *)

Module Py.

(** *** Exceptions *)

Inductive exn : Type :=
  | ZeroDivisionError
  | ValueError (msg : string)
  | TypeError (msg : string).

Inductive result (A : Type) : Type :=
  | Ok (a : A)
  | Raise (e : exn).
Arguments Ok {A} a.
Arguments Raise {A} e.

#[global] Instance result_ret : MRet result := λ A a, Ok a.
#[global] Instance result_bind : MBind result := λ A B f m,
  match m with
  | Ok a => f a
  | Raise e => Raise e
  end.

Definition is_ValueError_or_TypeError (e : exn) : bool :=
  match e with
  | ValueError _ | TypeError _ => true
  | ZeroDivisionError => false
  end.

(** [try: body except (handled): handler] *)
Definition try_except {A} (body : result A) (handled : exn → bool)
    (handler : result A) : result A :=
  match body with
  | Ok a => Ok a
  | Raise e => if handled e then handler else Raise e
  end.

(** *** Floats *)

Inductive pyfloat : Type :=
  | Fin (q : Qc)
  | PInf
  | NInf
  | NaN.

Definition of_Z (z : Z) : pyfloat := Fin (Q2Qc (z # 1)).
Definition of_ratio (n : Z) (d : positive) : pyfloat := Fin (Q2Qc (n # d)).

(** [x < y] *)
Definition float_lt (x y : pyfloat) : bool :=
  match x, y with
  | NaN, _ | _, NaN => false
  | Fin a, Fin b => bool_decide (a < b)%Qc
  | NInf, NInf => false
  | NInf, _ => true
  | _, NInf => false
  | PInf, _ => false
  | Fin _, PInf => true
  end.

(** [x > y] *)
Definition float_gt (x y : pyfloat) : bool := float_lt y x.

(** [x == y] *)
Definition float_eq (x y : pyfloat) : bool :=
  match x, y with
  | Fin a, Fin b => bool_decide (a = b)
  | PInf, PInf | NInf, NInf => true
  | _, _ => false
  end.

Definition infinity_times (pos : bool) (q : Qc) : pyfloat :=
  if bool_decide (q = 0)%Qc then NaN
  else if bool_decide (0 < q)%Qc then (if pos then PInf else NInf)
  else (if pos then NInf else PInf).

(** [x * y] *)
Definition float_mul (x y : pyfloat) : pyfloat :=
  match x, y with
  | NaN, _ | _, NaN => NaN
  | Fin a, Fin b => Fin (a * b)
  | PInf, Fin b | Fin b, PInf => infinity_times true b
  | NInf, Fin b | Fin b, NInf => infinity_times false b
  | PInf, PInf | NInf, NInf => PInf
  | PInf, NInf | NInf, PInf => NInf
  end.

(** [x - y] *)
Definition float_sub (x y : pyfloat) : pyfloat :=
  match x, y with
  | NaN, _ | _, NaN => NaN
  | Fin a, Fin b => Fin (a - b)
  | PInf, PInf | NInf, NInf => NaN
  | PInf, _ => PInf
  | NInf, _ => NInf
  | Fin _, PInf => NInf
  | Fin _, NInf => PInf
  end.

(** [x / y]: a zero divisor raises, whatever the dividend. *)
Definition float_div (x y : pyfloat) : result pyfloat :=
  match y with
  | Fin b =>
      if bool_decide (b = 0)%Qc then Raise ZeroDivisionError
      else Ok match x with
              | Fin a => Fin (a / b)
              | PInf => if bool_decide (0 < b)%Qc then PInf else NInf
              | NInf => if bool_decide (0 < b)%Qc then NInf else PInf
              | NaN => NaN
              end
  | PInf | NInf =>
      Ok match x with
         | Fin _ => of_Z 0
         | _ => NaN
         end
  | NaN => Ok NaN
  end.

(** Nearest integer, ties to the even one. *)
Definition round_half_even (q : Q) : Z :=
  let n := Qnum q in
  let d := Zpos (Qden q) in
  let f := (n / d)%Z in
  let r := (n mod d)%Z in
  match (2 * r ?= d)%Z with
  | Lt => f
  | Gt => (f + 1)%Z
  | Eq => if Z.even f then f else (f + 1)%Z
  end.

(** [round(x, 2)] *)
Definition round2 (x : pyfloat) : pyfloat :=
  match x with
  | Fin q => Fin (Q2Qc (round_half_even (this q * (100 # 1))%Q # 100))
  | _ => x
  end.

(** What [float(value)] makes of an argument typed [Any]: a float, or one of
    the two exceptions the conversion raises. *)
Inductive conversion_failure : Type :=
  | NotParsable   (* a string that is no number: ValueError *)
  | WrongType.    (* None, a list, ...: TypeError *)

Inductive any : Type :=
  | Num (x : pyfloat)
  | NotNum (why : conversion_failure).

Definition float (value : any) : result pyfloat :=
  match value with
  | Num x => Ok x
  | NotNum NotParsable => Raise (ValueError "could not convert string to float")
  | NotNum WrongType => Raise (TypeError "float() argument must be a string or a real number")
  end.

(** *** Strings *)

Definition code (c : ascii) : N := N_of_ascii c.

(** [str.isspace] on one ASCII character: TAB..CR, FS..US and the space. *)
Definition isspace (c : ascii) : bool :=
  ((9 <=? code c) && (code c <=? 13) || (28 <=? code c) && (code c <=? 32))%N.

Definition in_range (lo hi c : ascii) : bool :=
  ((code lo <=? code c) && (code c <=? code hi))%N.

Definition isdigit (c : ascii) : bool := in_range "0" "9" c.

Definition upper_char (c : ascii) : ascii :=
  if in_range "a" "z" c then ascii_of_N (code c - 32) else c.

Definition lower_char (c : ascii) : ascii :=
  if in_range "A" "Z" c then ascii_of_N (code c + 32) else c.

Fixpoint map_chars (f : ascii → ascii) (s : string) : string :=
  match s with
  | EmptyString => EmptyString
  | String c s' => String (f c) (map_chars f s')
  end.

Definition upper : string → string := map_chars upper_char.
Definition lower : string → string := map_chars lower_char.

Fixpoint lstrip (s : string) : string :=
  match s with
  | EmptyString => EmptyString
  | String c s' => if isspace c then lstrip s' else s
  end.

Definition rstrip (s : string) : string := String.rev (lstrip (String.rev s)).

Definition strip (s : string) : string := rstrip (lstrip s).

Fixpoint filter_chars (keep : ascii → bool) (s : string) : string :=
  match s with
  | EmptyString => EmptyString
  | String c s' =>
      if keep c then String c (filter_chars keep s') else filter_chars keep s'
  end.

(** *** Regular expressions

    The patterns of [validator.py] use character classes, concatenation and
    bounded or unbounded repetition, between [^] and [$]. Matching is by
    Brzozowski derivatives. *)

Inductive regex : Type :=
  | Void
  | Eps
  | Class (p : ascii → bool)
  | Cat (r1 r2 : regex)
  | Alt (r1 r2 : regex)
  | Star (r : regex).

Definition Lit (c : ascii) : regex := Class (λ x, bool_decide (x = c)).
Definition Opt (r : regex) : regex := Alt Eps r.
Definition Plus (r : regex) : regex := Cat r (Star r).

(** [r{n}] *)
Fixpoint Rep (n : nat) (r : regex) : regex :=
  match n with
  | O => Eps
  | S n' => Cat r (Rep n' r)
  end.

(** [r{n,}] *)
Definition RepMin (n : nat) (r : regex) : regex := Cat (Rep n r) (Star r).

Fixpoint nullable (r : regex) : bool :=
  match r with
  | Void => false
  | Eps => true
  | Class _ => false
  | Cat r1 r2 => nullable r1 && nullable r2
  | Alt r1 r2 => nullable r1 || nullable r2
  | Star _ => true
  end.

Fixpoint deriv (c : ascii) (r : regex) : regex :=
  match r with
  | Void | Eps => Void
  | Class p => if p c then Eps else Void
  | Cat r1 r2 =>
      if nullable r1 then Alt (Cat (deriv c r1) r2) (deriv c r2)
      else Cat (deriv c r1) r2
  | Alt r1 r2 => Alt (deriv c r1) (deriv c r2)
  | Star r1 => Cat (deriv c r1) (Star r1)
  end.

(** The whole of [s] is a word of [r]. *)
Fixpoint matches (r : regex) (s : string) : bool :=
  match s with
  | EmptyString => nullable r
  | String c s' => matches (deriv c r) s'
  end.

(** [re.match('^' r '$', s) is not None]: without the MULTILINE flag, [$]
    holds at the end of [s] and just before a newline that ends [s]. *)
Definition re_match (r : regex) (s : string) : bool :=
  matches (Cat r (Opt (Lit "010"))) s.

(** *** Slices and replacement *)

Fixpoint take_chars (n : nat) (s : string) : string :=
  match n, s with
  | S n', String c s' => String c (take_chars n' s')
  | _, _ => EmptyString
  end.

(** [s[:n]]: the first [n] characters; a negative [n] counts from the end. *)
Definition slice_to (n : Z) (s : string) : string :=
  if (0 <=? n)%Z then take_chars (Z.to_nat n) s
  else take_chars (Z.to_nat (Z.of_nat (String.length s) + n)) s.


(** [s.replace(c, '')] for a one-character [c]. *)
Definition remove_char (c : ascii) (s : string) : string :=
  filter_chars (λ x, negb (bool_decide (x = c))) s.

(** *** Formatting and counting *)

Fixpoint zeros (n : nat) : string :=
  match n with
  | O => EmptyString
  | S n' => String "0" (zeros n')
  end.

(** [f"{n:04d}"] for an [n] that is not negative: the decimal digits, with
    zeros in front up to four characters. *)
Definition format_04d (n : nat) : string :=
  let digits := DecimalString.NilEmpty.string_of_uint (Nat.to_uint n) in
  zeros (4 - String.length digits) +:+ digits.

(** [sum(1 for x in l if test(x))] *)
Definition count_if {A} (test : A → bool) (l : list A) : Z :=
  Z.of_nat (length (filter (λ x, test x = true) l)).

(** [x + y] *)
Definition float_add (x y : pyfloat) : pyfloat :=
  match x, y with
  | NaN, _ | _, NaN => NaN
  | Fin a, Fin b => Fin (a + b)
  | PInf, NInf | NInf, PInf => NaN
  | PInf, _ | _, PInf => PInf
  | NInf, _ | _, NInf => NInf
  end.

(** [x <= y] *)
Definition float_le (x y : pyfloat) : bool := float_lt x y || float_eq x y.

(** [sum(l)] of floats, from the integer 0. *)
Definition sum_of (l : list pyfloat) : pyfloat := foldl float_add (of_Z 0) l.

(** [bool(x)] of a float: anything but zero. *)
Definition truthy (x : pyfloat) : bool := negb (float_eq x (of_Z 0)).

(** [abs(x)] *)
Definition float_abs (x : pyfloat) : pyfloat :=
  match x with
  | Fin a => if bool_decide (a < 0)%Qc then Fin (- a) else x
  | NInf => PInf
  | _ => x
  end.

(** [s.replace(old, new)] for one-character [old] and [new]. *)
Definition replace_char (old new : ascii) (s : string) : string :=
  map_chars (λ c, if bool_decide (c = old) then new else c) s.

(** [str.title]: a letter is put in upper case when no letter stands before
    it, in lower case otherwise. *)
Definition isalpha (c : ascii) : bool :=
  in_range "a" "z" c || in_range "A" "Z" c.

Fixpoint title_after (previous_is_cased : bool) (s : string) : string :=
  match s with
  | EmptyString => EmptyString
  | String c s' =>
      String (if previous_is_cased then lower_char c else upper_char c)
        (title_after (isalpha c) s')
  end.

Definition title (s : string) : string := title_after false s.

(** [d[key]] on a dict kept in insertion order; [None] stands for KeyError. *)
Fixpoint getitem {A} (d : list (string * A)) (key : string) : option A :=
  match d with
  | [] => None
  | (k, v) :: rest => if bool_decide (k = key) then Some v else getitem rest key
  end.

End Py.

Import Py.

#[global] Instance pyfloat_inhabited : Inhabited pyfloat := populate NaN.

(** ** config.py *)

Module config.

(** Valuation thresholds. *)
Definition THRESHOLDS : gmap string pyfloat :=
  <["client" := of_ratio 7 10]>
  (<["third_party" := of_ratio 7 10]>
  (<["commercial" := of_ratio 65 100]>
  (<["luxury" := of_ratio 75 100]> ∅))).

Definition POLICY_TYPES : list string :=
  [ "comprehensive"; "third_party_property"; "third_party_fire_theft";
    "commercial" ].

(** A dict whose keys are read in insertion order. *)
Definition LOSS_TYPES : list (string * string) :=
  [ ("client", "Client Vehicle (Own Damage)");
    ("third_party", "Third Party Vehicle") ].

(** [VALIDATION_RULES], one definition per key. *)
Module VALIDATION_RULES.
Definition min_policy_value : pyfloat := of_Z 1000.
Definition max_policy_value : pyfloat := of_Z 500000.
Definition min_salvage_value : pyfloat := of_Z 0.
Definition min_repair_quote : pyfloat := of_Z 0.
Definition max_repair_quote_ratio : pyfloat := of_ratio 2 1.
End VALIDATION_RULES.

(** [THRESHOLDS.get(policy_type, THRESHOLDS["client"])] *)
Definition get_threshold (policy_type : string) : pyfloat :=
  default (THRESHOLDS !!! "client") (THRESHOLDS !! policy_type).

(** The variables [load_dotenv] and [os.getenv] read: each unset ([None]) or
    a string. *)
Record environment : Type := {
  AUTO_GRAP_KEY : option string;
  EMAIL_USER : option string;
  EMAIL_PASS : option string;
  TWILIO_SID : option string;
  TWILIO_TOKEN : option string;
  TWILIO_FROM : option string
}.

(** [not value] for a value read from the environment. *)
Definition not_set (value : option string) : bool :=
  match value with
  | None => true
  | Some s => bool_decide (s = "")
  end.

(** [validate_config()], as the pair of ["valid"] and ["errors"]. *)
Definition validate_config (env : environment) : bool * list string :=
  let errors := [] in
  let errors :=
    if not_set (AUTO_GRAP_KEY env)
    then errors ++ ["AUTO_GRAP_KEY not set in environment"] else errors in
  let errors :=
    if not_set (EMAIL_USER env) || not_set (EMAIL_PASS env)
    then errors ++ ["Email credentials not set in environment"] else errors in
  let errors :=
    if not_set (TWILIO_SID env) || not_set (TWILIO_TOKEN env)
    then errors ++ ["Twilio credentials not set in environment"] else errors in
  ((length errors =? 0)%nat, errors).

End config.

(** ** validator.py *)

Module validator.

(** The texts of errors and warnings: a literal, or an f-string with the
    values it interpolates. *)
Inductive message : Type :=
  | Text (s : string)
  | MustBeValidNumber (field_name : string)
  | CannotBeNegative (field_name : string)
  | MustBeAtLeast (field_name : string) (min_value : pyfloat)
  | CannotExceed (field_name : string) (max_value : pyfloat)
  | InvalidPolicyType (allowed : list string)
  | InvalidLossType (allowed : list string)
  | RepairQuoteMultiple (ratio : pyfloat).

(** The offending value kept with an error (the source keeps [str(value)]). *)
Inductive offending : Type :=
  | OfStr (s : string)
  | OfAny (a : any)
  | OfFloat (x : pyfloat).

Record error_entry : Type := {
  error_field : string;
  error_message : message;
  error_value : option offending
}.

Record warning_entry : Type := {
  warning_field : string;
  warning_message : message
}.

(** class ValidationResult *)
Record ValidationResult : Type := {
  errors : list error_entry;
  warnings : list warning_entry
}.

Definition ValidationResult_init : ValidationResult :=
  {| errors := []; warnings := [] |}.

Definition add_error (field : string) (msg : message) (value : option offending)
    (self : ValidationResult) : ValidationResult :=
  {| errors := errors self ++
               [ {| error_field := field; error_message := msg;
                    error_value := value |} ];
     warnings := warnings self |}.

Definition add_warning (field : string) (msg : message)
    (self : ValidationResult) : ValidationResult :=
  {| errors := errors self;
     warnings := warnings self ++
                 [ {| warning_field := field; warning_message := msg |} ] |}.

Definition is_valid (self : ValidationResult) : bool :=
  (length (errors self) =? 0)%nat.

(** [get_summary]: the all-passed line with the number of warnings (no
    suffix when there is none), or the failure header with one line per
    error. *)
Inductive summary : Type :=
  | AllPassed (n_warnings : nat)
  | Failed (n_errors : nat) (lines : list (string * message)).

Definition get_summary (self : ValidationResult) : summary :=
  if is_valid self then AllPassed (length (warnings self))
  else Failed (length (errors self))
         (map (λ e, (error_field e, error_message e)) (errors self)).

(** class InputValidator *)

(** [[A-HJ-NPR-Z0-9]] *)
Definition vin_char (c : ascii) : bool :=
  in_range "A" "H" c || in_range "J" "N" c || bool_decide (c = "P"%char)
  || in_range "R" "Z" c || in_range "0" "9" c.

Definition vin_pattern : regex := Rep 17 (Class vin_char).

Definition validate_vin (vin : string) : bool :=
  if bool_decide (vin = "") then false
  else
    let vin := upper (strip vin) in
    if negb (String.length vin =? 17)%nat then false
    else if negb (re_match vin_pattern vin) then false
    else true.

(** [[a-zA-Z0-9._%+-]], [[a-zA-Z0-9.-]] and [[a-zA-Z]] *)
Definition alpha (c : ascii) : bool := in_range "a" "z" c || in_range "A" "Z" c.
Definition alnum (c : ascii) : bool := alpha c || in_range "0" "9" c.
Definition email_local_char (c : ascii) : bool :=
  alnum c || bool_decide (c ∈ ["."; "_"; "%"; "+"; "-"]%char).
Definition email_domain_char (c : ascii) : bool :=
  alnum c || bool_decide (c ∈ ["."; "-"]%char).

Definition email_pattern : regex :=
  Cat (Plus (Class email_local_char))
  (Cat (Lit "@")
  (Cat (Plus (Class email_domain_char))
  (Cat (Lit ".") (RepMin 2 (Class alpha))))).

Definition validate_email (email : string) : bool :=
  if bool_decide (email = "") then false
  else re_match email_pattern (strip email).

(** [[234578]] *)
Definition area_digit (c : ascii) : bool :=
  bool_decide (c ∈ ["2"; "3"; "4"; "5"; "7"; "8"]%char).

Definition phone_patterns : list regex :=
  [ Cat (Opt (Lit "+")) (Cat (Lit "6") (Cat (Lit "1")
      (Cat (Class area_digit) (Rep 8 (Class isdigit)))));
    Cat (Lit "0") (Cat (Class area_digit) (Rep 8 (Class isdigit))) ].

Definition validate_phone (phone : string) : bool :=
  if bool_decide (phone = "") then false
  else
    let phone :=
      filter_chars
        (λ c, negb (isspace c || bool_decide (c ∈ ["-"; "("; ")"]%char)))
        phone in
    existsb (λ pattern, re_match pattern phone) phone_patterns.

(** The pairs [validate_monetary_value] returns: [(True, None)] and
    [(False, error_message)]. *)
Inductive monetary_check : Type :=
  | Accepted
  | Rejected (error_message : message).

(** [max_value is not None and value > max_value], the last test. *)
Definition check_max_value (value : pyfloat) (field_name : string)
    (max_value : option pyfloat) : monetary_check :=
  match max_value with
  | Some M =>
      if float_gt value M then Rejected (CannotExceed field_name M)
      else Accepted
  | None => Accepted
  end.

(** [float] raises nothing but ValueError and TypeError, which the source
    catches. *)
Definition validate_monetary_value (value : any) (field_name : string)
    (min_value max_value : option pyfloat) : monetary_check :=
  match float value with
  | Raise _ => Rejected (MustBeValidNumber field_name)
  | Ok value =>
      if float_lt value (of_Z 0) then Rejected (CannotBeNegative field_name)
      else
        match min_value with
        | Some m =>
            if float_lt value m then Rejected (MustBeAtLeast field_name m)
            else check_max_value value field_name max_value
        | None => check_max_value value field_name max_value
        end
  end.

Definition validate_policy_type (policy_type : string) : bool :=
  bool_decide (lower policy_type ∈ config.POLICY_TYPES).

Definition validate_loss_type (loss_type : string) : bool :=
  bool_decide (lower loss_type ∈ config.LOSS_TYPES.*1).

(** [if owner and not validate(owner)] for an optional contact field. *)
Definition present_and_invalid (validate : string → bool)
    (owner : option string) : bool :=
  match owner with
  | Some s => negb (bool_decide (s = "")) && negb (validate s)
  | None => false
  end.

Definition validate_total_loss_input (vin policy_type : string)
    (policy_value salvage_value repair_quote : any) (loss_type : string)
    (owner_email owner_phone : option string) : result ValidationResult :=
  let result := ValidationResult_init in
  (* VIN validation *)
  let result :=
    if negb (validate_vin vin) then
      add_error "vin"
        (Text "Invalid VIN format. Must be 17 characters, alphanumeric (no I, O, Q)")
        (Some (OfStr vin)) result
    else result in
  (* Policy type validation *)
  let result :=
    if negb (validate_policy_type policy_type) then
      add_error "policy_type" (InvalidPolicyType config.POLICY_TYPES)
        (Some (OfStr policy_type)) result
    else result in
  (* Loss type validation *)
  let result :=
    if negb (validate_loss_type loss_type) then
      add_error "loss_type" (InvalidLossType config.LOSS_TYPES.*1)
        (Some (OfStr loss_type)) result
    else result in
  (* Policy value validation; [policy_value] stays what [float] converts *)
  let result :=
    match validate_monetary_value policy_value "Policy Value"
            (Some config.VALIDATION_RULES.min_policy_value)
            (Some config.VALIDATION_RULES.max_policy_value) with
    | Rejected error_msg =>
        add_error "policy_value" error_msg (Some (OfAny policy_value)) result
    | Accepted => result
    end in
  (* Salvage value validation *)
  result ←
    match validate_monetary_value salvage_value "Salvage Value"
            (Some config.VALIDATION_RULES.min_salvage_value) None with
    | Rejected error_msg =>
        Ok (add_error "salvage_value" error_msg (Some (OfAny salvage_value)) result)
    | Accepted =>
        salvage_value ← float salvage_value;
        (* Check salvage value doesn't exceed policy value *)
        try_except
          (policy ← float policy_value;
           if float_gt salvage_value policy then
             Ok (add_error "salvage_value"
                   (Text "Salvage value cannot exceed policy value")
                   (Some (OfFloat salvage_value)) result)
           else Ok result)
          is_ValueError_or_TypeError
          (Ok result)
    end;
  (* Repair quote validation *)
  result ←
    match validate_monetary_value repair_quote "Repair Quote"
            (Some config.VALIDATION_RULES.min_repair_quote) None with
    | Rejected error_msg =>
        Ok (add_error "repair_quote" error_msg (Some (OfAny repair_quote)) result)
    | Accepted =>
        repair_quote ← float repair_quote;
        (* Warning if repair quote seems unreasonably high *)
        try_except
          (policy ← float policy_value;
           if float_gt repair_quote
                (float_mul policy config.VALIDATION_RULES.max_repair_quote_ratio) then
             policy ← float policy_value;
             ratio ← float_div repair_quote policy;
             Ok (add_warning "repair_quote" (RepairQuoteMultiple ratio) result)
           else Ok result)
          is_ValueError_or_TypeError
          (Ok result)
    end;
  (* Email validation (optional) *)
  let result :=
    if present_and_invalid validate_email owner_email then
      add_error "owner_email" (Text "Invalid email address format")
        (OfStr <$> owner_email) result
    else result in
  (* Phone validation (optional) *)
  let result :=
    if present_and_invalid validate_phone owner_phone then
      add_error "owner_phone"
        (Text "Invalid phone number format (Australian format required)")
        (OfStr <$> owner_phone) result
    else result in
  Ok result.

(** [char == '\n' or char == '\t' or ord(char) >= 32] *)
Definition keeps (char : ascii) : bool :=
  bool_decide (char = "010"%char) || bool_decide (char = "009"%char)
  || (32 <=? code char)%N.

Definition sanitize_input (text : string) (max_length : Z) : string :=
  if bool_decide (text = "") then ""
  else
    (* Remove null bytes *)
    let text := remove_char "000" text in
    (* Limit length *)
    let text := slice_to max_length text in
    (* Remove control characters except newlines and tabs *)
    let text := filter_chars keeps text in
    strip text.

End validator.

(** ** valuation_engine.py *)

Module valuation_engine.
Import validator.

(** The two calculation-method labels, with the percentage each prints. *)
Inductive method : Type :=
  | PercentOfPolicyValue (pct : pyfloat)
  | PercentOfNetValue (pct : pyfloat).

(** class ValuationResult; [timestamp] is the reading of [datetime.now()]. *)
Record ValuationResult : Type := {
  is_total_loss : bool;
  threshold : pyfloat;
  policy_value : pyfloat;
  salvage_value : pyfloat;
  repair_quote : pyfloat;
  loss_type : string;
  policy_type : string;
  vin : string;
  calculation_method : method;
  timestamp : Z;
  threshold_percentage : pyfloat;
  decision_margin : pyfloat
}.

(** [ValuationResult.__init__], with the clock reading [now]. *)
Definition ValuationResult_init (now : Z) (is_total_loss : bool)
    (threshold policy_value salvage_value repair_quote : pyfloat)
    (loss_type policy_type vin : string) (calculation_method : method)
    : result ValuationResult :=
  threshold_percentage ←
    (if float_gt threshold (of_Z 0) then
       quotient ← float_div repair_quote threshold;
       Ok (float_mul quotient (of_Z 100))
     else Ok (of_Z 0));
  Ok {| is_total_loss := is_total_loss;
        threshold := threshold;
        policy_value := policy_value;
        salvage_value := salvage_value;
        repair_quote := repair_quote;
        loss_type := loss_type;
        policy_type := policy_type;
        vin := vin;
        calculation_method := calculation_method;
        timestamp := now;
        threshold_percentage := threshold_percentage;
        decision_margin := float_sub repair_quote threshold |}.

(** The dictionary [to_dict] builds. *)
Record decision_dict : Type := {
  d_vin : string;
  d_timestamp : Z;
  d_decision : string;
  d_loss_type : string;
  d_policy_type : string;
  d_policy_value : pyfloat;
  d_salvage_value : pyfloat;
  d_repair_quote : pyfloat;
  d_threshold : pyfloat;
  d_threshold_percentage : pyfloat;
  d_decision_margin : pyfloat;
  d_calculation_method : method
}.

Definition to_dict (self : ValuationResult) : decision_dict :=
  {| d_vin := vin self;
     d_timestamp := timestamp self;
     d_decision := if is_total_loss self then "TOTAL LOSS" else "REPAIRABLE";
     d_loss_type := loss_type self;
     d_policy_type := policy_type self;
     d_policy_value := round2 (policy_value self);
     d_salvage_value := round2 (salvage_value self);
     d_repair_quote := round2 (repair_quote self);
     d_threshold := round2 (threshold self);
     d_threshold_percentage := round2 (threshold_percentage self);
     d_decision_margin := round2 (decision_margin self);
     d_calculation_method := calculation_method self |}.

(** What [generate_explanation] renders: the values it interpolates into
    the report and the wording it chooses. *)
Inductive icon : Type :=
  | Red
  | Green.

Record explanation : Type := {
  x_vin : string;
  x_evaluation_date : Z;
  x_loss_type : string;
  x_policy_type : string;
  x_policy_value : pyfloat;
  x_salvage_value : pyfloat;
  x_repair_quote : pyfloat;
  x_calculation_method : method;
  x_threshold_heading : string;
  x_threshold : pyfloat;
  x_repair_vs_threshold : pyfloat;
  x_decision_margin : pyfloat;
  x_margin_side : string;
  x_decision_icon : icon;
  x_decision : string;
  x_rationale_verb : string;
  x_rationale_share : string;
  x_rationale_base : string;
  x_rationale_verdict : string
}.

(** [generate_explanation]; [None] is the KeyError of
    [config.LOSS_TYPES[self.loss_type]]. *)
Definition generate_explanation (self : ValuationResult) : option explanation :=
  let decision_icon := if is_total_loss self then Red else Green in
  loss_type_name ← getitem config.LOSS_TYPES (loss_type self);
  Some
    {| x_vin := vin self;
       x_evaluation_date := timestamp self;
       x_loss_type := loss_type_name;
       x_policy_type := title (replace_char "_" " " (policy_type self));
       x_policy_value := policy_value self;
       x_salvage_value := salvage_value self;
       x_repair_quote := repair_quote self;
       x_calculation_method := calculation_method self;
       x_threshold_heading := "Threshold (70%):";
       x_threshold := threshold self;
       x_repair_vs_threshold := threshold_percentage self;
       x_decision_margin := float_abs (decision_margin self);
       x_margin_side :=
         if float_gt (decision_margin self) (of_Z 0) then "over" else "under";
       x_decision_icon := decision_icon;
       x_decision := if is_total_loss self then "TOTAL LOSS" else "REPAIRABLE";
       x_rationale_verb := if is_total_loss self then "exceeds" else "is below";
       x_rationale_share := "70%";
       x_rationale_base :=
         if bool_decide (loss_type self = "client") then "policy value"
         else "net value (policy - salvage)";
       x_rationale_verdict :=
         if is_total_loss self then "ECONOMIC TOTAL LOSS" else "REPAIRABLE" |}.

(** class ValuationEngine *)

Definition calculate_total_loss (now : Z) (vin policy_type : string)
    (policy_value salvage_value repair_quote : any) (loss_type : string)
    (skip_validation : bool)
    : result (option ValuationResult * ValidationResult) :=
  (* Validate inputs *)
  validation ←
    (if negb skip_validation then
       validate_total_loss_input vin policy_type policy_value salvage_value
         repair_quote loss_type None None
     else Ok ValidationResult_init);
  if negb skip_validation && negb (is_valid validation) then
    (* Return empty result with validation errors *)
    Ok (None, validation)
  else
    (* Convert to float for calculations *)
    policy_value ← float policy_value;
    salvage_value ← float salvage_value;
    repair_quote ← float repair_quote;
    (* Get threshold percentage for policy type *)
    let threshold_pct := config.get_threshold policy_type in
    (* Calculate threshold based on loss type *)
    '(threshold, calculation_method) ←
      (if bool_decide (loss_type = "client") then
         Ok (float_mul policy_value threshold_pct,
             PercentOfPolicyValue (float_mul threshold_pct (of_Z 100)))
       else if bool_decide (loss_type = "third_party") then
         let net_value := float_sub policy_value salvage_value in
         Ok (float_mul net_value threshold_pct,
             PercentOfNetValue (float_mul threshold_pct (of_Z 100)))
       else Raise (ValueError ("Invalid loss type: " +:+ loss_type)));
    (* Make decision *)
    let is_total_loss := float_gt repair_quote threshold in
    (* Create result object *)
    result ←
      ValuationResult_init now is_total_loss threshold policy_value
        salvage_value repair_quote loss_type policy_type vin calculation_method;
    Ok (Some result, validation).

(** One dictionary of the list [calculate_batch] receives, as the keyword
    arguments it is unpacked into. *)
Record case : Type := {
  case_vin : string;
  case_policy_type : string;
  case_policy_value : any;
  case_salvage_value : any;
  case_repair_quote : any;
  case_loss_type : string;
  case_skip_validation : bool
}.

(** [calculate_total_loss] on the keyword arguments of one case. *)
Definition evaluate (now : Z) (c : case)
    : result (option ValuationResult * ValidationResult) :=
  calculate_total_loss now (case_vin c) (case_policy_type c)
    (case_policy_value c) (case_salvage_value c) (case_repair_quote c)
    (case_loss_type c) (case_skip_validation c).

Record batch_entry : Type := {
  entry_case : case;
  entry_result : option decision_dict;
  entry_validation : summary
}.

Definition make_entry (c : case)
    (outcome : option ValuationResult * ValidationResult) : batch_entry :=
  {| entry_case := c;
     entry_result := to_dict <$> outcome.1;
     entry_validation := get_summary outcome.2 |}.

(** The loop of [calculate_batch] from the [i]-th case on; [clock i] is the
    clock reading while the [i]-th case is evaluated. *)
Fixpoint calculate_batch_from (clock : nat → Z) (i : nat) (cases : list case)
    : result (list batch_entry) :=
  match cases with
  | [] => Ok []
  | c :: rest =>
      outcome ← evaluate (clock i) c;
      results ← calculate_batch_from clock (S i) rest;
      Ok (make_entry c outcome :: results)
  end.

Definition calculate_batch (clock : nat → Z) (cases : list case)
    : result (list batch_entry) :=
  calculate_batch_from clock 0 cases.

End valuation_engine.

(** ** data_storage.py *)

Module data_storage.
Import valuation_engine.

(** A stored decision: the dictionary [to_dict] built, which is what the
    callers of [save_decision] pass, under the two keys [save_decision]
    adds. *)
Record decision_record : Type := {
  id : string;
  stored_at : string;
  data : decision_dict
}.

(** The JSON document of the storage file. *)
Record document : Type := {
  version : string;
  created : string;
  decisions : list decision_record
}.

(** The storage file: missing, present without being a JSON text, or holding
    a document. Writing is taken to succeed. *)
Inductive file : Type :=
  | Missing
  | Unreadable
  | Stored (d : document).

(** The methods read the clock through [now], the reading in ISO format;
    each returns its result with the file it leaves. *)

(** The document [_initialize_storage] writes. *)
Definition empty_document (now : string) : document :=
  {| version := "1.0"; created := now; decisions := [] |}.

Definition _initialize_storage (now : string) : file :=
  Stored (empty_document now).

(** [DecisionStorage.__init__] *)
Definition DecisionStorage_init (now : string) (f : file) : file :=
  match f with
  | Missing => _initialize_storage now
  | _ => f
  end.

(** [_read_data]: a file that is missing or no JSON text is initialised
    again, and the call repeated reads the document just written. *)
Definition _read_data (now : string) (f : file) : document * file :=
  match f with
  | Stored d => (d, f)
  | Missing | Unreadable => (empty_document now, _initialize_storage now)
  end.

(** [save_decision]; [stamp] is the clock reading of the identifier, in the
    format [%Y%m%d%H%M%S], [now_stored] the one kept under [stored_at]. *)
Definition save_decision (now stamp now_stored : string)
    (decision_data : decision_dict) (f : file) : string * file :=
  let '(d, _) := _read_data now f in
  let decision_id :=
    "DEC-" +:+ stamp +:+ "-" +:+ format_04d (length (decisions d) + 1) in
  let decision_record :=
    {| id := decision_id; stored_at := now_stored; data := decision_data |} in
  let d :=
    {| version := version d; created := created d;
       decisions := decisions d ++ [decision_record] |} in
  (decision_id, Stored d).

(** The loop of [get_decision]: the first record with the identifier. *)
Fixpoint first_with_id (decision_id : string) (l : list decision_record)
    : option decision_record :=
  match l with
  | [] => None
  | decision :: rest =>
      if bool_decide (id decision = decision_id) then Some decision
      else first_with_id decision_id rest
  end.

Definition get_decision (now : string) (decision_id : string) (f : file)
    : option decision_record * file :=
  let '(d, f) := _read_data now f in
  (first_with_id decision_id (decisions d), f).

Definition get_decisions_by_vin (now : string) (vin : string) (f : file)
    : list decision_record * file :=
  let '(d, f) := _read_data now f in
  (filter (λ r, d_vin (data r) = vin) (decisions d), f).




(** The values of the dictionary [get_statistics] returns. *)
Inductive stat : Type :=
  | SInt (z : Z)
  | SFloat (x : pyfloat)
  | SCounts (counts : list (string * Z))
  | SStr (s : string).

(** [loss_types[lt] = loss_types.get(lt, 0) + 1] on a dict in insertion
    order. *)
Fixpoint increment (key : string) (counts : list (string * Z))
    : list (string * Z) :=
  match counts with
  | [] => [(key, 1%Z)]
  | (k, n) :: rest =>
      if bool_decide (k = key) then (k, (n + 1)%Z) :: rest
      else (k, n) :: increment key rest
  end.

(** [sum(values) / len(values) if values else 0] *)
Definition average (values : list pyfloat) : result stat :=
  match values with
  | [] => Ok (SInt 0)
  | _ =>
      quotient ← float_div (sum_of values) (of_Z (Z.of_nat (length values)));
      Ok (SFloat quotient)
  end.

Definition get_statistics (now : string) (f : file)
    : result (gmap string stat) * file :=
  let '(d, f) := _read_data now f in
  let decisions := decisions d in
  (match decisions with
   | [] =>
       Ok (<["total_decisions" := SInt 0]>
           (<["total_losses" := SInt 0]>
           (<["repairable" := SInt 0]>
           (<["avg_policy_value" := SInt 0]>
           (<["avg_repair_quote" := SInt 0]>
           (<["loss_types" := SCounts []]> ∅))))))
   | first :: _ =>
       let total_losses :=
         count_if (λ r, bool_decide (d_decision (data r) = "TOTAL LOSS"))
           decisions in
       let repairable :=
         count_if (λ r, bool_decide (d_decision (data r) = "REPAIRABLE"))
           decisions in
       let policy_values :=
         filter (λ x, truthy x = true)
           ((λ r, d_policy_value (data r)) <$> decisions) in
       let repair_quotes :=
         filter (λ x, truthy x = true)
           ((λ r, d_repair_quote (data r)) <$> decisions) in
       (* Count by loss type *)
       let loss_types :=
         foldl (λ counts r, increment (d_loss_type (data r)) counts) []
           decisions in
       share ← float_div (of_Z total_losses)
                 (of_Z (Z.of_nat (length decisions)));
       avg_policy_value ← average policy_values;
       avg_repair_quote ← average repair_quotes;
       Ok (<["total_decisions" := SInt (Z.of_nat (length decisions))]>
           (<["total_losses" := SInt total_losses]>
           (<["repairable" := SInt repairable]>
           (<["total_loss_percentage" := SFloat (float_mul share (of_Z 100))]>
           (<["avg_policy_value" := avg_policy_value]>
           (<["avg_repair_quote" := avg_repair_quote]>
           (<["loss_types" := SCounts loss_types]>
           (<["first_decision" := SStr (stored_at first)]>
           (<["last_decision" :=
                SStr (stored_at (List.last decisions first))]> ∅)))))))))
   end, f).

(** One filter of [search_decisions], applied when its criterion is given. *)
Definition where_given {A} (criterion : option A)
    (test : A → decision_record → bool) (results : list decision_record)
    : list decision_record :=
  match criterion with
  | Some a => filter (λ r, test a r = true) results
  | None => results
  end.

(** [if loss_type:] and the like: a string criterion counts when it is not
    empty. *)
Definition given (criterion : option string) : option string :=
  match criterion with
  | Some s => if bool_decide (s = "") then None else Some s
  | None => None
  end.

Definition search_decisions (now : string)
    (min_policy_value max_policy_value : option pyfloat)
    (loss_type decision start_date end_date : option string) (f : file)
    : list decision_record * file :=
  let '(d, f) := _read_data now f in
  let results := decisions d in
  (* Apply filters *)
  let results :=
    where_given min_policy_value
      (λ m r, float_le m (d_policy_value (data r))) results in
  let results :=
    where_given max_policy_value
      (λ M r, float_le (d_policy_value (data r)) M) results in
  let results :=
    where_given (given loss_type)
      (λ l r, bool_decide (d_loss_type (data r) = l)) results in
  let results :=
    where_given (given decision)
      (λ l r, bool_decide (d_decision (data r) = l)) results in
  let results :=
    where_given (given start_date)
      (λ s r, String.leb s (stored_at r)) results in
  let results :=
    where_given (given end_date)
      (λ e r, String.leb (stored_at r) e) results in
  (results, f).

(** [clear_all_decisions] *)
Definition clear_all_decisions (now : string) (confirm : bool) (f : file)
    : result unit * file :=
  if negb confirm then
    (Raise (ValueError "Must confirm to clear all decisions"), f)
  else (Ok (), _initialize_storage now).

End data_storage.

(** ** main.py *)

Module main.
Import validator valuation_engine data_storage.

(** The arguments of [run_assessment]. *)
Record assessment_args : Type := {
  args_vin : string;
  args_policy_type : string;
  args_policy_value : any;
  args_salvage_value : any;
  args_repair_quote : any;
  args_loss_type : string;
  args_output : option string;
  args_format : string;
  args_no_save : bool
}.

(** What [run_assessment] writes to the output path. *)
Inductive written : Type :=
  | WrittenJson (d : decision_dict)
  | WrittenText (report : explanation).

(** How a run of [run_assessment] ends: with the validation summary and
    the return value 1; with the warnings and the report printed, the
    identifier of the saved decision and the output written, and the return
    value 0; with an exception of the engine; with the KeyError of
    [generate_explanation]; or with the AttributeError of a method called on
    [None]. *)
Inductive assessment_run : Type :=
  | ValidationFailed (s : summary)
  | Assessed (warnings : list warning_entry) (report : explanation)
      (decision_id : option string) (output : option written)
  | EngineRaised (e : exn)
  | ExplanationKeyError
  | AttributeErrorOnNone.

(** [run_assessment]; [now] is the clock reading of the engine, the three
    strings are the readings of the storage. *)
Definition run_assessment (now : Z) (now_iso stamp now_stored : string)
    (args : assessment_args) (f : file) : assessment_run * file :=
  match calculate_total_loss now (args_vin args) (args_policy_type args)
          (args_policy_value args) (args_salvage_value args)
          (args_repair_quote args) (args_loss_type args) false with
  | Raise e => (EngineRaised e, f)
  | Ok (result, validation) =>
      if negb (is_valid validation) then
        (ValidationFailed (get_summary validation), f)
      else
        (* Display result *)
        match result with
        | None => (AttributeErrorOnNone, f)
        | Some result =>
            match generate_explanation result with
            | None => (ExplanationKeyError, f)
            | Some report =>
                (* Save to storage *)
                let '(decision_id, f) :=
                  if negb (args_no_save args) then
                    let f := DecisionStorage_init now_iso f in
                    let '(decision_id, f) :=
                      save_decision now_iso stamp now_stored (to_dict result)
                        f in
                    (Some decision_id, f)
                  else (None, f) in
                (* Save to file if requested *)
                let output :=
                  match args_output args with
                  | Some path =>
                      if bool_decide (path = "") then None
                      else if bool_decide (args_format args = "json") then
                        Some (WrittenJson (to_dict result))
                      else
                        (* the report, rendered once more *)
                        Some (WrittenText report)
                  | None => None
                  end in
                (Assessed (warnings validation) report decision_id output, f)
            end
        end
  end.

(** The figures [run_batch] prints under BATCH SUMMARY. *)
Record batch_summary : Type := {
  total_cases : Z;
  successful : Z;
  failed : Z;
  total_losses : Z;
  repairable : Z
}.

Definition has_result (r : batch_entry) : bool :=
  match entry_result r with
  | Some _ => true
  | None => false
  end.

(** [r['result'] and r['result']['decision'] == 'TOTAL LOSS'] *)
Definition is_total_loss_entry (r : batch_entry) : bool :=
  match entry_result r with
  | Some d => bool_decide (d_decision d = "TOTAL LOSS")
  | None => false
  end.

(** [run_batch] on the cases read from the input file: the batch, then the
    summary. *)
Definition run_batch (clock : nat → Z) (cases : list case)
    : result (list batch_entry * batch_summary) :=
  results ← calculate_batch clock cases;
  let successful := count_if has_result results in
  let failed := (Z.of_nat (length results) - successful)%Z in
  let total_losses := count_if is_total_loss_entry results in
  Ok (results,
      {| total_cases := Z.of_nat (length cases);
         successful := successful;
         failed := failed;
         total_losses := total_losses;
         repairable := (successful - total_losses)%Z |}).

(** What [run_statistics] prints, in the order of the lines. *)
Record statistics_report : Type := {
  shown_total_decisions : stat;
  shown_total_losses : stat;
  shown_total_loss_percentage : stat;
  shown_repairable : stat;
  shown_avg_policy_value : stat;
  shown_avg_repair_quote : stat;
  shown_loss_types : stat;
  shown_period : option (string * string)
}.

(** How a run of [run_statistics] ends: the report printed, a KeyError from
    [stats[key]], or an exception of [get_statistics]. *)
Inductive statistics_run : Type :=
  | Printed (report : statistics_report)
  | KeyError (key : string)
  | Raised (e : exn).

(** [stats[key]], then the rest of the function. *)
Definition lookup_stat (stats : gmap string stat) (key : string)
    (rest : stat → statistics_run) : statistics_run :=
  match stats !! key with
  | Some value => rest value
  | None => KeyError key
  end.

(** [if stats['first_decision']:] *)
Definition shown (value : stat) : bool :=
  match value with
  | SStr s => negb (bool_decide (s = ""))
  | SInt z => negb (z =? 0)%Z
  | SFloat x => truthy x
  | SCounts counts => negb (bool_decide (counts = []))
  end.

(** [value[:10]] *)
Definition first_ten (value : stat) : string :=
  match value with
  | SStr s => slice_to 10 s
  | _ => ""
  end.

Definition run_statistics (now : string) (f : file) : statistics_run * file :=
  let f := DecisionStorage_init now f in
  let '(stats, f) := get_statistics now f in
  (match stats with
   | Raise e => Raised e
   | Ok stats =>
       lookup_stat stats "total_decisions" (λ total_decisions,
       lookup_stat stats "total_losses" (λ total_losses,
       lookup_stat stats "total_loss_percentage" (λ total_loss_percentage,
       lookup_stat stats "repairable" (λ repairable,
       lookup_stat stats "avg_policy_value" (λ avg_policy_value,
       lookup_stat stats "avg_repair_quote" (λ avg_repair_quote,
       lookup_stat stats "loss_types" (λ loss_types,
       lookup_stat stats "first_decision" (λ first_decision,
       if shown first_decision then
         lookup_stat stats "first_decision" (λ first_decision,
         lookup_stat stats "last_decision" (λ last_decision,
         Printed
           {| shown_total_decisions := total_decisions;
              shown_total_losses := total_losses;
              shown_total_loss_percentage := total_loss_percentage;
              shown_repairable := repairable;
              shown_avg_policy_value := avg_policy_value;
              shown_avg_repair_quote := avg_repair_quote;
              shown_loss_types := loss_types;
              shown_period :=
                Some (first_ten first_decision, first_ten last_decision) |}))
       else
         Printed
           {| shown_total_decisions := total_decisions;
              shown_total_losses := total_losses;
              shown_total_loss_percentage := total_loss_percentage;
              shown_repairable := repairable;
              shown_avg_policy_value := avg_policy_value;
              shown_avg_repair_quote := avg_repair_quote;
              shown_loss_types := loss_types;
              shown_period := None |}))))))))
   end, f).

End main.

(** * Vocabulary of the properties *)

Import validator valuation_engine.

(** The fields an outcome reports errors and warnings on, in order. *)
Definition error_fields (v : ValidationResult) : list string :=
  error_field <$> errors v.

Definition warning_fields (v : ValidationResult) : list string :=
  warning_field <$> warnings v.

(** The 33 symbols of a vehicle identifier: the digits and the upper-case
    letters other than I, O and Q. *)
Definition VIN_ALPHABET : list ascii :=
  list_ascii_of_string "0123456789ABCDEFGHJKLMNPRSTUVWXYZ".

(** Exactly 17 characters, each of the alphabet. *)
Definition vin_shape (s : string) : Prop :=
  String.length s = 17 ∧ ∀ c, c ∈ list_ascii_of_string s → c ∈ VIN_ALPHABET.

Definition accepted (c : monetary_check) : bool :=
  match c with
  | Accepted => true
  | Rejected _ => false
  end.

(** The three monetary checks, with the bounds [validate_total_loss_input]
    passes. *)
Definition policy_value_check (policy_value : any) : monetary_check :=
  validate_monetary_value policy_value "Policy Value"
    (Some config.VALIDATION_RULES.min_policy_value)
    (Some config.VALIDATION_RULES.max_policy_value).

Definition salvage_value_check (salvage_value : any) : monetary_check :=
  validate_monetary_value salvage_value "Salvage Value"
    (Some config.VALIDATION_RULES.min_salvage_value) None.

Definition repair_quote_check (repair_quote : any) : monetary_check :=
  validate_monetary_value repair_quote "Repair Quote"
    (Some config.VALIDATION_RULES.min_repair_quote) None.

(** The cross-field tests, false when a side does not convert. *)
Definition salvage_exceeds_policy (salvage_value policy_value : any) : bool :=
  match float salvage_value, float policy_value with
  | Ok s, Ok p => float_gt s p
  | _, _ => false
  end.

Definition repair_exceeds_ratio (repair_quote policy_value : any) : bool :=
  match float repair_quote, float policy_value with
  | Ok r, Ok p =>
      float_gt r (float_mul p config.VALIDATION_RULES.max_repair_quote_ratio)
  | _, _ => false
  end.

(** The error fields a call reports when every rule is evaluated, none
    short-circuited, in the order of the source. *)
Definition expected_error_fields (vin policy_type : string)
    (policy_value salvage_value repair_quote : any) (loss_type : string)
    (owner_email owner_phone : option string) : list string :=
  (if validate_vin vin then [] else ["vin"]) ++
  (if validate_policy_type policy_type then [] else ["policy_type"]) ++
  (if validate_loss_type loss_type then [] else ["loss_type"]) ++
  (if accepted (policy_value_check policy_value) then []
   else ["policy_value"]) ++
  (if accepted (salvage_value_check salvage_value) then
     if salvage_exceeds_policy salvage_value policy_value
     then ["salvage_value"] else []
   else ["salvage_value"]) ++
  (if accepted (repair_quote_check repair_quote) then []
   else ["repair_quote"]) ++
  (if present_and_invalid validate_email owner_email then ["owner_email"]
   else []) ++
  (if present_and_invalid validate_phone owner_phone then ["owner_phone"]
   else []).

Definition expected_warning_fields (policy_value repair_quote : any)
    : list string :=
  if accepted (repair_quote_check repair_quote)
     && repair_exceeds_ratio repair_quote policy_value
  then ["repair_quote"] else [].

(** [float(policy_value)] is zero. *)
Definition zero_policy (policy_value : any) : bool :=
  match float policy_value with
  | Ok (Fin q) => bool_decide (q = 0)%Qc
  | _ => false
  end.

(** The inputs on which building the warning divides by zero. *)
Definition warning_divides_by_zero (policy_value repair_quote : any) : bool :=
  accepted (repair_quote_check repair_quote)
  && repair_exceeds_ratio repair_quote policy_value
  && zero_policy policy_value.

(** A call passes validation: the validator returns an outcome without
    errors (the engine passes no contact field). *)
Definition passes_validation (vin policy_type : string)
    (policy_value salvage_value repair_quote : any) (loss_type : string)
    : Prop :=
  ∃ v, validate_total_loss_input vin policy_type policy_value salvage_value
         repair_quote loss_type None None = Ok v
       ∧ is_valid v = true.


(** Cases of the test suite, and variations on them. *)
Definition scenario_1 : case :=
  {| case_vin := "1HGBH41JXMN109186";
     case_policy_type := "comprehensive";
     case_policy_value := Num (of_Z 20000);
     case_salvage_value := Num (of_Z 5000);
     case_repair_quote := Num (of_Z 15000);
     case_loss_type := "client";
     case_skip_validation := false |}.

Definition scenario_2 : case :=
  {| case_vin := "2HGBH41JXMN109187";
     case_policy_type := "comprehensive";
     case_policy_value := Num (of_Z 25000);
     case_salvage_value := Num (of_Z 7000);
     case_repair_quote := Num (of_Z 13000);
     case_loss_type := "third_party";
     case_skip_validation := false |}.

(** A negative repair quote: validation fails. *)
Definition scenario_6 : case :=
  {| case_vin := "6HGBH41JXMN109191";
     case_policy_type := "comprehensive";
     case_policy_value := Num (of_Z 20000);
     case_salvage_value := Num (of_Z 5000);
     case_repair_quote := Num (of_Z (-1000));
     case_loss_type := "client";
     case_skip_validation := false |}.



(** ** Vocabulary of the further properties *)

(** The characters of a string, in order. *)
Definition chars (s : string) : list ascii := list_ascii_of_string s.

(** Leading white space removed, on the list of characters. *)
Fixpoint drop_spaces (l : list ascii) : list ascii :=
  match l with
  | [] => []
  | c :: l' => if isspace c then drop_spaces l' else l
  end.

(** No white space at either end. *)
Definition trimmed (s : string) : Prop :=
  drop_spaces (chars s) = chars s ∧ drop_spaces (rev (chars s)) = rev (chars s).

(** Every character of [s] is in the class [p]. *)
Definition all_chars (p : ascii → bool) (s : string) : Prop :=
  ∀ c, c ∈ chars s → p c = true.

(** The shape [local@domain.tld] of an address. *)
Definition email_shape (s : string) : Prop :=
  ∃ local domain tld,
    s = local +:+ "@" +:+ domain +:+ "." +:+ tld
    ∧ local ≠ "" ∧ all_chars email_local_char local
    ∧ domain ≠ "" ∧ all_chars email_domain_char domain
    ∧ 2 ≤ String.length tld ∧ all_chars alpha tld.

(** What [validate_phone] keeps of a number: everything but white space,
    dashes and parentheses. *)
Definition phone_digits (phone : string) : string :=
  filter_chars
    (λ c, negb (isspace c || bool_decide (c ∈ ["-"; "("; ")"]%char))) phone.

(** An area digit and eight digits after the prefix ["0"], ["61"] or
    ["+61"]. *)
Definition phone_shape (s : string) : Prop :=
  ∃ prefix area rest,
    s = prefix +:+ String area rest
    ∧ (prefix = "0" ∨ prefix = "61" ∨ prefix = "+61")
    ∧ area_digit area = true
    ∧ String.length rest = 8 ∧ all_chars isdigit rest.

(** The fields in the order [validate_total_loss_input] checks them. *)
Definition RULE_ORDER : list string :=
  [ "vin"; "policy_type"; "loss_type"; "policy_value"; "salvage_value";
    "repair_quote"; "owner_email"; "owner_phone" ].

(** [y] is [x] rounded to a whole number of cents, at most half a cent away;
    an infinity or NaN is left as it is. *)
Definition nearest_cent (x y : pyfloat) : Prop :=
  match x with
  | Fin a =>
      ∃ n : Z, y = Fin (Q2Qc (n # 100))
               ∧ (a - Q2Qc (1 # 200) <= Q2Qc (n # 100))%Qc
               ∧ (Q2Qc (n # 100) <= a + Q2Qc (1 # 200))%Qc
  | _ => y = x
  end.


(** The cases of a batch with the index each is evaluated at. *)
Definition indexed (cases : list case) : list (nat * case) :=
  imap (λ i c, (i, c)) cases.

(** What evaluating one case of a batch gives: a decision, a total loss, a
    failed validation. *)
Definition decided (clock : nat → Z) (ic : nat * case) : bool :=
  match evaluate (clock ic.1) ic.2 with
  | Ok (Some _, _) => true
  | _ => false
  end.

Definition judged_total_loss (clock : nat → Z) (ic : nat * case) : bool :=
  match evaluate (clock ic.1) ic.2 with
  | Ok (Some r, _) => is_total_loss r
  | _ => false
  end.

Definition failed_validation (clock : nat → Z) (ic : nat * case) : bool :=
  match evaluate (clock ic.1) ic.2 with
  | Ok (_, v) => negb (is_valid v)
  | Raise _ => false
  end.

(** The decisions a storage file holds; none when it is missing or no JSON
    text. *)
Definition stored_decisions (f : data_storage.file)
    : list data_storage.decision_record :=
  match f with
  | data_storage.Stored d => data_storage.decisions d
  | _ => []
  end.

(** The identifier [save_decision] gives the [n]-th decision of a store. *)
Definition decision_id_of (stamp : string) (n : nat) : string :=
  "DEC-" +:+ stamp +:+ "-" +:+ format_04d n.

(** Every stored decision carries the identifier of its position: the state
    of a store that was filled by [save_decision] only. *)
Definition well_numbered (f : data_storage.file) : Prop :=
  ∀ i r, stored_decisions f !! i = Some r →
         ∃ stamp, data_storage.id r = decision_id_of stamp (i + 1).

(** A decision dictionary for the examples. *)
Definition sample_decision (vin decision loss_type : string)
    (policy_value repair_quote : Z) : decision_dict :=
  {| d_vin := vin; d_timestamp := 0%Z; d_decision := decision;
     d_loss_type := loss_type; d_policy_type := "comprehensive";
     d_policy_value := of_Z policy_value; d_salvage_value := of_Z 0;
     d_repair_quote := of_Z repair_quote;
     d_threshold := float_mul (of_Z policy_value) (of_ratio 7 10);
     d_threshold_percentage := of_Z 0; d_decision_margin := of_Z 0;
     d_calculation_method := PercentOfPolicyValue (of_Z 70) |}.

(** A store after one save into a missing file. *)
Definition sample_store : data_storage.file :=
  (data_storage.save_decision "2024-05-01T10:00:00" "20240501100000"
     "2024-05-01T10:00:00.000100"
     (sample_decision "1HGBH41JXMN109186" "TOTAL LOSS" "client" 20000 15000)
     data_storage.Missing).2.


(** The criteria of [search_decisions], and what it is for a stored decision
    to meet all that are given: a bound or a string that is absent, and a
    string that is empty, asks nothing. *)
Record criteria : Type := {
  min_policy_value : option pyfloat;
  max_policy_value : option pyfloat;
  for_loss_type : option string;
  for_decision : option string;
  start_date : option string;
  end_date : option string
}.

Definition asks {A} (criterion : option A) (test : A → bool) : bool :=
  match criterion with
  | Some a => test a
  | None => true
  end.

Definition meets (c : criteria) (r : data_storage.decision_record) : bool :=
  asks (min_policy_value c)
    (λ m, float_le m (d_policy_value (data_storage.data r)))
  && asks (max_policy_value c)
       (λ M, float_le (d_policy_value (data_storage.data r)) M)
  && asks (data_storage.given (for_loss_type c))
       (λ l, bool_decide (d_loss_type (data_storage.data r) = l))
  && asks (data_storage.given (for_decision c))
       (λ l, bool_decide (d_decision (data_storage.data r) = l))
  && asks (data_storage.given (start_date c))
       (λ s, String.leb s (data_storage.stored_at r))
  && asks (data_storage.given (end_date c))
       (λ e, String.leb (data_storage.stored_at r) e).

Definition search (now : string) (c : criteria) (f : data_storage.file)
    : list data_storage.decision_record * data_storage.file :=
  data_storage.search_decisions now (min_policy_value c) (max_policy_value c)
    (for_loss_type c) (for_decision c) (start_date c) (end_date c) f.


(** * Properties *)

(** ** Words of the regular expressions *)

Section regex_words.
Implicit Types (r : regex) (s : string) (c : ascii) (p : ascii → bool).

Lemma append_empty_l s : "" +:+ s = s.
Proof. reflexivity. Qed.

Lemma append_String c s1 s2 : String c s1 +:+ s2 = String c (s1 +:+ s2).
Proof. reflexivity. Qed.

Lemma append_empty_r s : s +:+ "" = s.
Proof. induction s; [done |]. rewrite append_String. congruence. Qed.

Lemma length_append s1 s2 :
  String.length (s1 +:+ s2) = String.length s1 + String.length s2.
Proof.
  induction s1; [done |]. rewrite append_String. simpl. congruence.
Qed.

Lemma matches_Void s : matches Void s = false.
Proof. induction s; simpl; auto. Qed.

Lemma matches_Eps s : matches Eps s = bool_decide (s = "").
Proof. destruct s; simpl; [done | apply matches_Void]. Qed.

Lemma matches_Alt r1 r2 s :
  matches (Alt r1 r2) s = matches r1 s || matches r2 s.
Proof. revert r1 r2. induction s as [| c s IH]; intros; simpl; auto. Qed.

Lemma matches_Cat_Void r s : matches (Cat Void r) s = false.
Proof. induction s; simpl; auto. Qed.

(** A word of [r1 r2] splits into a word of [r1] and a word of [r2]. *)
Lemma matches_Cat r1 r2 s :
  matches (Cat r1 r2) s = true ↔
  ∃ s1 s2, s = s1 +:+ s2 ∧ matches r1 s1 = true ∧ matches r2 s2 = true.
Proof.
  revert r1. induction s as [| c s IH]; intros r1; simpl.
  - rewrite andb_true_iff. split.
    + intros [H1 H2]. by exists "", "".
    + intros (s1 & s2 & Hs & H1 & H2).
      destruct s1; [| discriminate].
      rewrite append_empty_l in Hs. subst s2. auto.
  - destruct (nullable r1) eqn:Hn.
    + rewrite matches_Alt, orb_true_iff, IH. split.
      * intros [(s1 & s2 & -> & H1 & H2) | H].
        -- by exists (String c s1), s2.
        -- by exists "", (String c s).
      * intros (s1 & s2 & Hs & H1 & H2). destruct s1 as [| c' s1].
        -- rewrite append_empty_l in Hs. subst s2. by right.
        -- rewrite append_String in Hs. injection Hs as -> ->.
           left. by exists s1, s2.
    + rewrite IH. split.
      * intros (s1 & s2 & -> & H1 & H2). by exists (String c s1), s2.
      * intros (s1 & s2 & Hs & H1 & H2). destruct s1 as [| c' s1].
        -- simpl in H1. congruence.
        -- rewrite append_String in Hs. injection Hs as -> ->.
           by exists s1, s2.
Qed.

Lemma matches_Class p s :
  matches (Class p) s = true ↔ ∃ c, s = String c "" ∧ p c = true.
Proof.
  destruct s as [| c s]; simpl.
  - split; [done | by intros (? & ? & _)].
  - destruct (p c) eqn:Hp.
    + rewrite matches_Eps, bool_decide_eq_true. split.
      * intros ->. by exists c.
      * by intros (? & [= <- ->] & _).
    + rewrite matches_Void. split; [done |].
      intros (? & [= <- ->] & ?). congruence.
Qed.

(** The words of [[p]{n}]: [n] characters, each in the class. *)
Lemma matches_Rep_Class p n s :
  matches (Rep n (Class p)) s = true ↔
  String.length s = n ∧ ∀ c, c ∈ list_ascii_of_string s → p c = true.
Proof.
  revert s. induction n as [| n IH]; intros s; simpl.
  - rewrite matches_Eps, bool_decide_eq_true. split.
    + intros ->. split; [done |]. simpl. by intros c ?%elem_of_nil.
    + intros [Hl _]. by destruct s.
  - rewrite matches_Cat. split.
    + intros (s1 & s2 & -> & (c & -> & Hc)%matches_Class & [Hl Hall]%IH).
      rewrite append_String, append_empty_l. simpl.
      split; [by rewrite Hl |].
      intros c' [-> | ?]%elem_of_cons; auto.
    + intros [Hl Hall]. destruct s as [| c s]; [done |].
      exists (String c ""), s. split_and!; [done | |].
      * apply matches_Class. exists c. split; [done |].
        apply Hall. simpl. left.
      * apply IH. simpl in *. split; [lia |].
        intros c' ?. apply Hall. by right.
Qed.

(** Between [^] and [$] the pattern [[p]{n}] takes the strings of exactly
    [n] characters of the class, once their length is [n]. *)
Lemma re_match_Rep_Class p n s :
  String.length s = n →
  re_match (Rep n (Class p)) s = true ↔
  ∀ c, c ∈ list_ascii_of_string s → p c = true.
Proof.
  intros Hn. unfold re_match. rewrite matches_Cat. split.
  - intros (s1 & s2 & -> & [Hl Hall]%matches_Rep_Class & _).
    rewrite length_append in Hn.
    assert (s2 = "") as -> by (destruct s2; [done | simpl in Hn; lia]).
    intros c. revert Hall. clear. induction s1; simpl; auto.
    intros Hall. rewrite !elem_of_cons. intros [-> | ?].
    + apply Hall. left.
    + apply IHs1; [| done]. intros ??. apply Hall. by right.
  - intros Hall. exists s, "". split_and!.
    + by rewrite append_empty_r.
    + by apply matches_Rep_Class.
    + done.
Qed.
End regex_words.

(** ** The vehicle identifier *)

Lemma vin_char_alphabet c : vin_char c = true ↔ c ∈ VIN_ALPHABET.
Proof.
  assert (vin_char c = bool_decide (c ∈ VIN_ALPHABET)) as ->.
  { destruct c as [[] [] [] [] [] [] [] []]; vm_compute; reflexivity. }
  apply bool_decide_eq_true.
Qed.

Lemma length_map_chars f s : String.length (map_chars f s) = String.length s.
Proof. induction s; simpl; congruence. Qed.

Lemma validate_vin_shape vin :
  validate_vin vin = true ↔ vin_shape (upper (strip vin)).
Proof.
  unfold validate_vin, vin_shape.
  destruct (bool_decide (vin = "")) eqn:Hempty.
  - apply bool_decide_eq_true in Hempty as ->. split; [done |].
    by intros [Hl _].
  - destruct (String.length (upper (strip vin)) =? 17)%nat eqn:Hlen; simpl.
    + apply Nat.eqb_eq in Hlen.
      pose proof (re_match_Rep_Class vin_char 17 _ Hlen) as Hre.
      fold vin_pattern in Hre.
      destruct (re_match vin_pattern (upper (strip vin))) eqn:Hm; simpl.
      * split; [intros _ | done]. split; [done |].
        intros c Hc. apply vin_char_alphabet. by apply Hre.
      * split; [done |]. intros [_ Hall]. apply Hre.
        intros c Hc. apply vin_char_alphabet. by apply Hall.
    + apply Nat.eqb_neq in Hlen. split; [done | by intros [? _]].
Qed.

(** ** The validation outcome *)

Lemma bind_Ok {A B} (m : result A) (f : A → result B) (b : B) :
  m ≫= f = Ok b ↔ ∃ a, m = Ok a ∧ f a = Ok b.
Proof.
  destruct m as [a | e]; simpl.
  - split; [by exists a | by intros (? & [= <-] & ?)].
  - split; [done | by intros (? & ? & _)].
Qed.

Lemma error_fields_add_error field msg value v :
  error_fields (add_error field msg value v) = error_fields v ++ [field].
Proof. unfold error_fields. simpl. by rewrite fmap_app. Qed.

Lemma error_fields_add_warning field msg v :
  error_fields (add_warning field msg v) = error_fields v.
Proof. reflexivity. Qed.

Lemma warning_fields_add_error field msg value v :
  warning_fields (add_error field msg value v) = warning_fields v.
Proof. reflexivity. Qed.

Lemma warning_fields_add_warning field msg v :
  warning_fields (add_warning field msg v) = warning_fields v ++ [field].
Proof. unfold warning_fields. simpl. by rewrite fmap_app. Qed.

Lemma is_valid_error_fields v : is_valid v = true ↔ error_fields v = [].
Proof.
  unfold is_valid, error_fields. rewrite Nat.eqb_eq.
  destruct (errors v); simpl; split; done.
Qed.

Lemma validate_monetary_value_float value field_name min_value max_value :
  validate_monetary_value value field_name min_value max_value = Accepted →
  ∃ x, float value = Ok x.
Proof.
  unfold validate_monetary_value. destruct (float value); [eauto | done].
Qed.

Lemma float_div_Raise x y e : float_div x y = Raise e → e = ZeroDivisionError.
Proof.
  unfold float_div. destruct y; [| done..].
  case_bool_decide; [congruence | done].
Qed.

(** Every rule is evaluated, and each reports on its own field. *)
Lemma validate_total_loss_input_fields vin policy_type policy_value
    salvage_value repair_quote loss_type owner_email owner_phone v :
  validate_total_loss_input vin policy_type policy_value salvage_value
    repair_quote loss_type owner_email owner_phone = Ok v →
  error_fields v =
    expected_error_fields vin policy_type policy_value salvage_value
      repair_quote loss_type owner_email owner_phone ∧
  warning_fields v = expected_warning_fields policy_value repair_quote.
Proof.
  unfold validate_total_loss_input, expected_error_fields,
    expected_warning_fields.
  fold (policy_value_check policy_value) (salvage_value_check salvage_value)
    (repair_quote_check repair_quote).
  set (r1 := if negb (validate_vin vin) then _ else _).
  set (r2 := if negb (validate_policy_type policy_type) then _ else _).
  set (r3 := if negb (validate_loss_type loss_type) then _ else _).
  set (r4 := match policy_value_check policy_value with
             | Accepted => _ | Rejected _ => _ end).
  intros (r5 & H5 & (r6 & H6 & [= <-])%bind_Ok)%bind_Ok.
  assert (error_fields r1 = (if validate_vin vin then [] else ["vin"])
          ∧ warning_fields r1 = []) as [E1 W1].
  { unfold r1. by destruct (validate_vin vin). }
  assert (error_fields r2 = error_fields r1 ++
            (if validate_policy_type policy_type then [] else ["policy_type"])
          ∧ warning_fields r2 = warning_fields r1) as [E2 W2].
  { unfold r2. destruct (validate_policy_type policy_type); simpl;
      rewrite ?error_fields_add_error, ?app_nil_r; done. }
  assert (error_fields r3 = error_fields r2 ++
            (if validate_loss_type loss_type then [] else ["loss_type"])
          ∧ warning_fields r3 = warning_fields r2) as [E3 W3].
  { unfold r3. destruct (validate_loss_type loss_type); simpl;
      rewrite ?error_fields_add_error, ?app_nil_r; done. }
  assert (error_fields r4 = error_fields r3 ++
            (if accepted (policy_value_check policy_value) then []
             else ["policy_value"])
          ∧ warning_fields r4 = warning_fields r3) as [E4 W4].
  { unfold r4. destruct (policy_value_check policy_value); simpl;
      rewrite ?error_fields_add_error, ?app_nil_r; done. }
  assert (error_fields r5 = error_fields r4 ++
            (if accepted (salvage_value_check salvage_value) then
               if salvage_exceeds_policy salvage_value policy_value
               then ["salvage_value"] else []
             else ["salvage_value"])
          ∧ warning_fields r5 = warning_fields r4) as [E5 W5].
  { unfold salvage_exceeds_policy.
    destruct (salvage_value_check salvage_value) eqn:Hs; simpl.
    - apply validate_monetary_value_float in Hs as [s Hs].
      rewrite Hs in *. simpl in H5.
      destruct (float policy_value) as [p | e]; simpl in H5.
      + destruct (float_gt s p); injection H5 as <-;
          rewrite ?error_fields_add_error, ?app_nil_r; done.
      + destruct e; simplify_eq/=; by rewrite app_nil_r.
    - injection H5 as <-. by rewrite error_fields_add_error. }
  assert (error_fields r6 = error_fields r5 ++
            (if accepted (repair_quote_check repair_quote) then []
             else ["repair_quote"])
          ∧ warning_fields r6 = warning_fields r5 ++
            (if accepted (repair_quote_check repair_quote)
                && repair_exceeds_ratio repair_quote policy_value
             then ["repair_quote"] else [])) as [E6 W6].
  { unfold repair_exceeds_ratio.
    destruct (repair_quote_check repair_quote) eqn:Hr; simpl.
    - apply validate_monetary_value_float in Hr as [r Hr].
      rewrite Hr in *. simpl in H6.
      destruct (float policy_value) as [p | e]; simpl in H6.
      + destruct (float_gt r _).
        * destruct (float_div r p) as [ratio | e] eqn:Hd; simpl in H6.
          -- injection H6 as <-.
             by rewrite warning_fields_add_warning, !app_nil_r.
          -- apply float_div_Raise in Hd as ->. done.
        * injection H6 as <-. by rewrite !app_nil_r.
      + destruct e; simplify_eq/=; by rewrite !app_nil_r.
    - injection H6 as <-.
      by rewrite error_fields_add_error, warning_fields_add_error, app_nil_r. }
  split.
  - destruct (present_and_invalid validate_email owner_email),
      (present_and_invalid validate_phone owner_phone);
      rewrite ?error_fields_add_error, E6, E5, E4, E3, E2, E1, <- ?app_assoc;
      simpl; rewrite ?app_nil_r; done.
  - destruct (present_and_invalid validate_email owner_email),
      (present_and_invalid validate_phone owner_phone);
      rewrite ?warning_fields_add_error, W6, W5, W4, W3, W2, W1; done.
Qed.

Lemma float_div_zero_policy x policy_value p :
  float policy_value = Ok p →
  float_div x p = if zero_policy policy_value then Raise ZeroDivisionError
            else Ok (match float_div x p with Ok y => y | Raise _ => NaN end).
Proof.
  unfold zero_policy. intros ->. unfold float_div.
  destruct p as [q | | |]; try done. by case_bool_decide.
Qed.

Lemma float_Raise value e :
  float value = Raise e → is_ValueError_or_TypeError e = true.
Proof. destruct value as [x | []]; simpl; by intros [= <-]. Qed.

(** The only exception of a validation call: the division that renders the
    repair-quote warning, when the policy value is zero. *)
Lemma validate_total_loss_input_returns vin policy_type policy_value
    salvage_value repair_quote loss_type owner_email owner_phone :
  if warning_divides_by_zero policy_value repair_quote then
    validate_total_loss_input vin policy_type policy_value salvage_value
      repair_quote loss_type owner_email owner_phone = Raise ZeroDivisionError
  else
    ∃ v, validate_total_loss_input vin policy_type policy_value salvage_value
           repair_quote loss_type owner_email owner_phone = Ok v.
Proof.
  unfold validate_total_loss_input, warning_divides_by_zero.
  fold (policy_value_check policy_value) (salvage_value_check salvage_value)
    (repair_quote_check repair_quote).
  set (r4 := match policy_value_check policy_value with
             | Accepted => _ | Rejected _ => _ end).
  clearbody r4.
  (* the salvage block returns *)
  match goal with
  | |- context [mbind ?k ?m] =>
      assert (∃ r5, m = Ok r5) as [r5 ->]; [| simpl]
  end.
  { destruct (salvage_value_check salvage_value) eqn:Hs; [| eauto].
    apply validate_monetary_value_float in Hs as [s ->]. simpl.
    destruct (float policy_value) as [p | e] eqn:Hp; simpl.
    - destruct (float_gt s p); eauto.
    - rewrite (float_Raise _ _ Hp). eauto. }
  unfold repair_exceeds_ratio.
  destruct (repair_quote_check repair_quote) eqn:Hr; simpl; [| eauto].
  apply validate_monetary_value_float in Hr as [r Hr]. rewrite Hr. simpl.
  destruct (float policy_value) as [p | e] eqn:Hp; simpl.
  - destruct (float_gt r _); simpl; [| eauto].
    rewrite (float_div_zero_policy r policy_value p Hp).
    destruct (zero_policy policy_value); simpl; eauto.
  - rewrite (float_Raise _ _ Hp). eauto.
Qed.

(** ** Comparisons and arithmetic of floats *)

Lemma Qc_eq_Q (a b : Qc) : a = b ↔ (this a == this b)%Q.
Proof. split; [by intros -> | apply Qc_is_canon]. Qed.

(** Turns the goal and the hypotheses on [Qc] into statements on [Q]. *)
Ltac qc_to_q :=
  unfold Qcle, Qclt, Qcminus, Qcdiv in *;
  repeat match goal with
  | H : @Logic.eq Qc _ _ |- _ => apply Qc_eq_Q in H
  | H : ¬ @Logic.eq Qc _ _ |- _ => rewrite Qc_eq_Q in H
  | |- @Logic.eq Qc _ _ => apply Qc_eq_Q
  | |- ¬ @Logic.eq Qc _ _ => rewrite Qc_eq_Q
  end;
  cbn [this Qcplus Qcmult Qcopp Q2Qc] in *;
  rewrite ?Qred_correct in *.

Ltac qc_lra := qc_to_q; simpl in *; lra.

Lemma float_lt_Fin a b : float_lt (Fin a) (Fin b) = true ↔ (a < b)%Qc.
Proof. apply bool_decide_eq_true. Qed.

Lemma float_lt_Fin_false a b :
  float_lt (Fin a) (Fin b) = false ↔ (b <= a)%Qc.
Proof.
  simpl. rewrite bool_decide_eq_false. split.
  - apply Qcnot_lt_le.
  - apply Qcle_not_lt.
Qed.

Lemma float_eq_not_gt x y : float_eq x y = true → float_gt x y = false.
Proof.
  unfold float_gt. destruct x as [a | | |], y as [b | | |]; simpl; try done.
  intros ->%bool_decide_eq_true. apply bool_decide_eq_false.
  by intros ?%Qclt_not_eq.
Qed.

Lemma float_sub_diag a : float_sub (Fin a) (Fin a) = of_Z 0.
Proof. unfold of_Z. simpl. f_equal. qc_lra. Qed.

Lemma float_mul_zero_l a : float_mul (of_Z 0) (Fin a) = of_Z 0.
Proof. unfold of_Z. simpl. f_equal. qc_lra. Qed.

(** A float above zero divides without raising. *)
Lemma float_div_by_positive x y :
  float_gt y (of_Z 0) = true → ∃ z, float_div x y = Ok z.
Proof.
  unfold float_gt, of_Z, float_div. destruct y as [b | | |]; simpl; try done; eauto.
  intros Hb%bool_decide_eq_true. rewrite bool_decide_eq_false_2; [eauto |].
  intros ->. by apply Qclt_not_eq in Hb.
Qed.

Lemma float_eq_zero_not_gt x :
  float_eq x (of_Z 0) = true → float_gt x (of_Z 0) = false.
Proof. apply float_eq_not_gt. Qed.

(** ** The threshold table *)

Lemma THRESHOLDS_lookup policy_type x :
  config.THRESHOLDS !! policy_type = Some x →
  x = of_ratio 7 10 ∨ x = of_ratio 65 100 ∨ x = of_ratio 75 100.
Proof.
  unfold config.THRESHOLDS.
  rewrite !lookup_insert_Some, lookup_empty.
  intros [[_ <-] | [_ [[_ <-] | [_ [[_ <-] | [_ [[_ <-] | [_ ?]]]]]]]];
    auto; done.
Qed.

Lemma get_threshold_cases policy_type :
  config.get_threshold policy_type = of_ratio 7 10
  ∨ config.get_threshold policy_type = of_ratio 65 100
  ∨ config.get_threshold policy_type = of_ratio 75 100.
Proof.
  unfold config.get_threshold.
  destruct (config.THRESHOLDS !! policy_type) as [x |] eqn:Hx; simpl.
  - by apply THRESHOLDS_lookup in Hx.
  - left. reflexivity.
Qed.

(** Every fraction is a number strictly between 0 and 1. *)
Lemma get_threshold_fraction policy_type :
  ∃ f, config.get_threshold policy_type = Fin f ∧ (0 < f)%Qc ∧ (f < 1)%Qc.
Proof.
  destruct (get_threshold_cases policy_type) as [-> | [-> | ->]];
    eexists; (split; [reflexivity |]); split; reflexivity.
Qed.

(** ** What a valid outcome tells about the inputs *)

Lemma expected_error_fields_nil vin policy_type policy_value salvage_value
    repair_quote loss_type owner_email owner_phone :
  expected_error_fields vin policy_type policy_value salvage_value
    repair_quote loss_type owner_email owner_phone = [] →
  validate_vin vin = true ∧ validate_policy_type policy_type = true
  ∧ validate_loss_type loss_type = true
  ∧ policy_value_check policy_value = Accepted
  ∧ salvage_value_check salvage_value = Accepted
  ∧ salvage_exceeds_policy salvage_value policy_value = false
  ∧ repair_quote_check repair_quote = Accepted.
Proof.
  unfold expected_error_fields.
  destruct (validate_vin vin), (validate_policy_type policy_type),
    (validate_loss_type loss_type), (policy_value_check policy_value),
    (salvage_value_check salvage_value),
    (salvage_exceeds_policy salvage_value policy_value),
    (repair_quote_check repair_quote); simpl; try done.
Qed.

Lemma passes_validation_checks vin policy_type policy_value salvage_value
    repair_quote loss_type :
  passes_validation vin policy_type policy_value salvage_value repair_quote
    loss_type →
  validate_vin vin = true ∧ validate_policy_type policy_type = true
  ∧ validate_loss_type loss_type = true
  ∧ policy_value_check policy_value = Accepted
  ∧ salvage_value_check salvage_value = Accepted
  ∧ salvage_exceeds_policy salvage_value policy_value = false
  ∧ repair_quote_check repair_quote = Accepted.
Proof.
  intros (v & [Hf _]%validate_total_loss_input_fields & Hv%is_valid_error_fields).
  rewrite Hv in Hf. symmetry in Hf. by apply expected_error_fields_nil in Hf.
Qed.

(** A float that passes a monetary check is not an infinity below zero;
    with an upper bound it is a number or NaN. *)
Lemma policy_value_check_Accepted policy_value :
  policy_value_check policy_value = Accepted →
  policy_value = Num NaN
  ∨ ∃ p, policy_value = Num (Fin p)
         ∧ (Q2Qc (1000 # 1) <= p)%Qc ∧ (p <= Q2Qc (500000 # 1))%Qc.
Proof.
  unfold policy_value_check, validate_monetary_value, check_max_value, float_gt.
  destruct policy_value as [[p | | |] | []]; simpl; try done; auto.
  repeat case_bool_decide; try done. intros _. right. exists p.
  split; [done |]. split; by apply Qcnot_lt_le.
Qed.

Lemma salvage_value_check_Accepted salvage_value :
  salvage_value_check salvage_value = Accepted →
  salvage_value = Num NaN ∨ salvage_value = Num PInf
  ∨ ∃ s, salvage_value = Num (Fin s) ∧ (0 <= s)%Qc.
Proof.
  unfold salvage_value_check, validate_monetary_value, check_max_value.
  destruct salvage_value as [[s | | |] | []]; simpl; try done; auto.
  repeat case_bool_decide; try done. intros _. right. right. exists s.
  split; [done |]. by apply Qcnot_lt_le.
Qed.


(** ** The valuation result *)

(** Building a result never raises: the division is taken only above zero. *)
Lemma ValuationResult_init_Ok now b th p s q loss pt vin m :
  ∃ r, ValuationResult_init now b th p s q loss pt vin m = Ok r
       ∧ is_total_loss r = b ∧ threshold r = th ∧ policy_value r = p
       ∧ salvage_value r = s ∧ repair_quote r = q ∧ loss_type r = loss
       ∧ decision_margin r = float_sub q th
       ∧ (float_gt th (of_Z 0) = true →
          ∃ x, float_div q th = Ok x ∧ threshold_percentage r = float_mul x (of_Z 100))
       ∧ (float_gt th (of_Z 0) = false → threshold_percentage r = of_Z 0).
Proof.
  unfold ValuationResult_init.
  destruct (float_gt th (of_Z 0)) eqn:Hth.
  - destruct (float_div_by_positive q th Hth) as [x Hx]. rewrite Hx. simpl.
    eexists. split; [reflexivity |]. simpl. split_and!; try done. eauto.
  - simpl. eexists. split; [reflexivity |]. simpl. split_and!; done.
Qed.

(** What a returned decision was computed from. *)
Lemma calculate_total_loss_Some now vin pt pv sv rq loss skip r v :
  calculate_total_loss now vin pt pv sv rq loss skip = Ok (Some r, v) →
  ∃ p s q,
    float pv = Ok p ∧ float sv = Ok s ∧ float rq = Ok q
    ∧ (loss = "client" ∧ threshold r = float_mul p (config.get_threshold pt)
       ∨ loss = "third_party"
         ∧ threshold r = float_mul (float_sub p s) (config.get_threshold pt))
    ∧ is_total_loss r = float_gt q (threshold r)
    ∧ policy_value r = p ∧ salvage_value r = s ∧ repair_quote r = q
    ∧ loss_type r = loss
    ∧ decision_margin r = float_sub q (threshold r)
    ∧ (float_gt (threshold r) (of_Z 0) = true →
       ∃ x, float_div q (threshold r) = Ok x
            ∧ threshold_percentage r = float_mul x (of_Z 100))
    ∧ (float_gt (threshold r) (of_Z 0) = false → threshold_percentage r = of_Z 0)
    ∧ (skip = false → passes_validation vin pt pv sv rq loss
                      ∧ validate_total_loss_input vin pt pv sv rq loss None None
                        = Ok v).
Proof.
  unfold calculate_total_loss.
  intros (validation & Hval & H)%bind_Ok.
  destruct (negb skip && negb (is_valid validation)) eqn:Hgate; [done |].
  apply bind_Ok in H as (p & Hp & H). apply bind_Ok in H as (s & Hs & H).
  apply bind_Ok in H as (q & Hq & H).
  apply bind_Ok in H as ([th m] & Hth & H).
  apply bind_Ok in H as (r' & Hr & [= -> ->]).
  destruct (ValuationResult_init_Ok now (float_gt q th) th p s q loss pt vin m)
    as (r0 & Hr0 & Hb & Ht & Hpv & Hsv & Hrq & Hloss & Hm & Hpos & Hneg).
  rewrite Hr0 in Hr. injection Hr as ->.
  exists p, s, q. rewrite Ht. split_and!; try done.
  - repeat case_bool_decide; simplify_eq/=; auto.
  - intros ->. simpl in *.
    destruct (is_valid v) eqn:Hv; [| done].
    split; [by exists v | done].
Qed.


(** ** The claims *)





(** C8. In every computed result the threshold percentage is
    repair quote / threshold × 100 when the threshold is above zero, and 0
    otherwise, so the division never sees a zero divisor; a third-party case
    whose salvage value equals its policy value has threshold 0 and
    percentage 0. *)
Theorem threshold_percentage_division_guarded
    now vin pt pv sv rq loss skip r v :
  calculate_total_loss now vin pt pv sv rq loss skip = Ok (Some r, v) →
  (float_gt (threshold r) (of_Z 0) = true →
   ∃ x, float_div (repair_quote r) (threshold r) = Ok x
        ∧ threshold_percentage r = float_mul x (of_Z 100))
  ∧ (float_gt (threshold r) (of_Z 0) = false → threshold_percentage r = of_Z 0)
  ∧ (float_eq (threshold r) (of_Z 0) = true → threshold_percentage r = of_Z 0)
  ∧ (loss = "third_party" →
     ∀ a, policy_value r = Fin a → salvage_value r = Fin a →
     threshold r = of_Z 0 ∧ threshold_percentage r = of_Z 0).
Proof.
  intros H.
  apply calculate_total_loss_Some in H
    as (p & s & q & Hp & Hs & Hq & Hth & _ & Hpv & Hsv & Hrq & _ & _ & Hpos
        & Hneg & _).
  rewrite Hrq. split_and!; try done.
  - intros Hz. by apply Hneg, float_eq_zero_not_gt.
  - intros -> a Ha Hb. destruct Hth as [[[=] _] | [_ Hth]].
    assert (threshold r = of_Z 0) as Hzero.
    { rewrite Hth. rewrite <- Hpv, <- Hsv, Ha, Hb, float_sub_diag.
      destruct (get_threshold_fraction pt) as (f & -> & _).
      apply float_mul_zero_l. }
    split; [done |]. apply Hneg. by rewrite Hzero.
Qed.

(** Scenario 5 of the test suite: salvage value equal to the policy value in
    a third-party loss. *)
Lemma threshold_percentage_division_guarded_witness :
  ∃ r v,
    calculate_total_loss 0 "5HGBH41JXMN109190" "comprehensive"
      (Num (of_Z 20000)) (Num (of_Z 20000)) (Num (of_Z 1000)) "third_party"
      false = Ok (Some r, v)
    ∧ threshold r = of_Z 0 ∧ threshold_percentage r = of_Z 0
    ∧ is_total_loss r = true.
Proof.
  eexists _, _. split; [vm_compute; reflexivity |].
  edestruct (threshold_percentage_division_guarded 0 "5HGBH41JXMN109190"
               "comprehensive" (Num (of_Z 20000)) (Num (of_Z 20000))
               (Num (of_Z 1000)) "third_party" false)
    as (_ & _ & _ & Hsame).
  - vm_compute; reflexivity.
  - destruct (Hsame eq_refl (Q2Qc (20000 # 1))) as [Hth Hpct];
      [vm_compute; reflexivity.. |].
    split; [exact Hth |]. split; [exact Hpct | vm_compute; reflexivity].
Defined.

(** C4. An outcome is valid exactly when its error list is empty; adding a
    warning never changes validity, so an outcome with warnings and no
    errors is valid: the outcome of a validation call is valid exactly when
    no rule reports an error, whether or not the warning is raised. *)
Theorem valid_iff_no_errors (v : ValidationResult) :
  (is_valid v = true ↔ errors v = [])
  ∧ (∀ field msg, is_valid (add_warning field msg v) = is_valid v)
  ∧ (∀ ws, is_valid {| errors := []; warnings := ws |} = true)
  ∧ (∀ field msg value, is_valid (add_error field msg value v) = false)
  ∧ (∀ vin pt pv sv rq loss email phone v',
       validate_total_loss_input vin pt pv sv rq loss email phone = Ok v' →
       is_valid v' = true ↔
       expected_error_fields vin pt pv sv rq loss email phone = []).
Proof.
  split_and!.
  - unfold is_valid. rewrite Nat.eqb_eq. by destruct (errors v).
  - intros field msg. reflexivity.
  - intros ws. reflexivity.
  - intros field msg value. unfold is_valid, add_error. simpl.
    rewrite length_app. simpl. apply Nat.eqb_neq. lia.
  - intros vin pt pv sv rq loss email phone v'
      [He _]%validate_total_loss_input_fields.
    by rewrite is_valid_error_fields, He.
Qed.


(** ** Decisions on inputs that pass validation *)

Lemma policy_value_check_Fin (p : Qc) :
  (Q2Qc (1000 # 1) <= p)%Qc → (p <= Q2Qc (500000 # 1))%Qc →
  policy_value_check (Num (Fin p)) = Accepted.
Proof.
  intros Hlo Hhi.
  unfold policy_value_check, validate_monetary_value, check_max_value, float_gt.
  simpl.
  rewrite !bool_decide_eq_false_2; [done | ..].
  - by apply Qcle_not_lt.
  - by apply Qcle_not_lt.
  - apply Qcle_not_lt. qc_lra.
Qed.

Lemma salvage_value_check_Fin (s : Qc) :
  (0 <= s)%Qc → salvage_value_check (Num (Fin s)) = Accepted.
Proof.
  intros Hs. unfold salvage_value_check, validate_monetary_value. simpl.
  rewrite !bool_decide_eq_false_2; [done | ..]; by apply Qcle_not_lt.
Qed.

Lemma repair_quote_check_above (q : pyfloat) (a : Qc) :
  (0 <= a)%Qc → float_gt q (Fin a) = true → repair_quote_check (Num q) = Accepted.
Proof.
  intros Ha Hq. unfold repair_quote_check, validate_monetary_value. simpl.
  destruct q as [b | | |]; try done. simpl in *.
  apply bool_decide_eq_true in Hq.
  rewrite !bool_decide_eq_false_2; [done | ..]; apply Qcle_not_lt; qc_lra.
Qed.

(** The engine on converted amounts, once validation has passed or was
    skipped. *)
Lemma calculate_total_loss_decides now vin pt p s q loss (skip : bool) v :
  (if skip then v = ValidationResult_init
   else validate_total_loss_input vin pt (Num p) (Num s) (Num q) loss None None
        = Ok v ∧ is_valid v = true) →
  loss = "client" ∨ loss = "third_party" →
  ∃ r, calculate_total_loss now vin pt (Num p) (Num s) (Num q) loss skip
       = Ok (Some r, v)
       ∧ threshold r
         = float_mul (if bool_decide (loss = "client") then p else float_sub p s)
             (config.get_threshold pt)
       ∧ is_total_loss r = float_gt q (threshold r).
Proof.
  intros Hv Hloss. unfold calculate_total_loss.
  set (th := float_mul (if bool_decide (loss = "client") then p else float_sub p s)
               (config.get_threshold pt)).
  set (m := if bool_decide (loss = "client")
            then PercentOfPolicyValue (float_mul (config.get_threshold pt) (of_Z 100))
            else PercentOfNetValue (float_mul (config.get_threshold pt) (of_Z 100))).
  destruct (ValuationResult_init_Ok now (float_gt q th) th p s q loss pt vin m)
    as (r & Hr & Hb & Ht & _).
  exists r.
  assert ((if negb skip
           then validate_total_loss_input vin pt (Num p) (Num s) (Num q) loss
                  None None
           else Ok ValidationResult_init) = Ok v) as ->.
  { destruct skip; simpl; [by subst v | by destruct Hv]. }
  simpl.
  assert (negb skip && negb (is_valid v) = false) as ->.
  { destruct skip; simpl; [done |]. destruct Hv as [_ ->]. done. }
  subst th m.
  destruct Hloss as [-> | ->]; simpl in *; rewrite Hr; simpl;
    by rewrite Ht, Hb.
Qed.

(** C6. An input that is valid in every other respect (well-formed vehicle
    identifier, recognised policy type, loss type "client" or "third_party",
    policy value within the configured bounds 1000 and 500000, salvage value
    between 0 and the policy value) and whose repair quote exceeds the policy
    value times the configured ratio yields an outcome with no error and a
    warning on "repair_quote", and a decision with [is_total_loss = true]. *)
Theorem excessive_repair_quote_warns_and_is_total_loss
    now vin pt loss (p s : Qc) (q : pyfloat) :
  validate_vin vin = true →
  validate_policy_type pt = true →
  loss = "client" ∨ loss = "third_party" →
  (Q2Qc (1000 # 1) <= p)%Qc → (p <= Q2Qc (500000 # 1))%Qc →
  (0 <= s)%Qc → (s <= p)%Qc →
  float_gt q (float_mul (Fin p) config.VALIDATION_RULES.max_repair_quote_ratio) = true →
  ∃ r v,
    calculate_total_loss now vin pt (Num (Fin p)) (Num (Fin s)) (Num q) loss
      false = Ok (Some r, v)
    ∧ errors v = [] ∧ is_valid v = true
    ∧ warning_fields v = ["repair_quote"]
    ∧ is_total_loss r = true.
Proof.
  intros Hvin Hpt Hloss Hlo Hhi Hs0 Hsp Hq.
  assert (validate_loss_type loss = true) as Hloss'.
  { by destruct Hloss as [-> | ->]. }
  pose proof (policy_value_check_Fin p Hlo Hhi) as Hpc.
  pose proof (salvage_value_check_Fin s Hs0) as Hsc.
  assert (repair_quote_check (Num q) = Accepted) as Hrc.
  { eapply repair_quote_check_above; [| exact Hq]. qc_lra. }
  assert (salvage_exceeds_policy (Num (Fin s)) (Num (Fin p)) = false) as Hx.
  { unfold salvage_exceeds_policy, float_gt. simpl. by apply float_lt_Fin_false. }
  pose proof (validate_total_loss_input_returns vin pt (Num (Fin p))
                (Num (Fin s)) (Num q) loss None None) as Hret.
  assert (zero_policy (Num (Fin p)) = false) as Hz.
  { unfold zero_policy. simpl. apply bool_decide_eq_false. intros ->.
    revert Hlo. apply Qclt_not_le. reflexivity. }
  unfold warning_divides_by_zero in Hret. rewrite Hz, andb_false_r in Hret.
  destruct Hret as [v Hv].
  destruct (validate_total_loss_input_fields _ _ _ _ _ _ _ _ _ Hv)
    as [He Hw].
  unfold expected_error_fields in He. unfold expected_warning_fields in Hw.
  rewrite Hvin, Hpt, Hloss', Hpc, Hsc, Hx, Hrc in He. simpl in He.
  assert (repair_exceeds_ratio (Num q) (Num (Fin p)) = true) as Hex
    by exact Hq.
  rewrite Hrc, Hex in Hw. simpl in Hw.
  assert (is_valid v = true) as Hvalid by by apply is_valid_error_fields.
  destruct (calculate_total_loss_decides now vin pt (Fin p) (Fin s) q loss
              false v (conj Hv Hvalid) Hloss) as (r & Hr & Hth & Hb).
  exists r, v. split_and!; try done.
  - unfold error_fields in He. by destruct (errors v).
  - rewrite Hb, Hth.
    destruct (get_threshold_fraction pt) as (f & -> & Hf0 & Hf1).
    unfold float_gt in *. destruct q as [b | | |]; try done.
    + simpl in Hq. apply bool_decide_eq_true in Hq.
      case_bool_decide; simpl; apply bool_decide_eq_true; qc_to_q;
        simpl in *; nra.
    + by case_bool_decide.
Qed.

(** Scenario 9 of the test suite, with the quote one dollar above twice the
    policy value. *)
Lemma excessive_repair_quote_warns_and_is_total_loss_witness :
  ∃ r v,
    calculate_total_loss 0 "9HGBH41JXMN109194" "comprehensive"
      (Num (of_Z 20000)) (Num (of_Z 5000)) (Num (of_Z 40001)) "client" false
    = Ok (Some r, v)
    ∧ errors v = [] ∧ is_valid v = true
    ∧ warning_fields v = ["repair_quote"]
    ∧ is_total_loss r = true.
Proof.
  apply (excessive_repair_quote_warns_and_is_total_loss 0 "9HGBH41JXMN109194"
           "comprehensive" "client" (Q2Qc (20000 # 1)) (Q2Qc (5000 # 1))
           (of_Z 40001)).
  - vm_compute; reflexivity.
  - vm_compute; reflexivity.
  - by left.
  - vm_compute; discriminate.
  - vm_compute; discriminate.
  - vm_compute; discriminate.
  - vm_compute; discriminate.
  - vm_compute; reflexivity.
Defined.

(** C9. The vehicle-identifier check accepts a string exactly when, trimmed
    and upper-cased, it has 17 characters of the 33-symbol alphabet: the
    digits and the upper-case letters other than I, O and Q. Any other
    string gets an error on field "vin" in the outcome of a validation
    call. *)
Theorem vin_check_accepts_exactly_the_alphabet (vin : string) :
  (validate_vin vin = true ↔ vin_shape (upper (strip vin)))
  ∧ length VIN_ALPHABET = 33 ∧ NoDup VIN_ALPHABET
  ∧ (∀ c, c ∈ VIN_ALPHABET ↔
          (isdigit c = true ∨ in_range "A" "Z" c = true)
          ∧ c ∉ ["I"; "O"; "Q"]%char)
  ∧ (∀ pt pv sv rq loss email phone v,
       validate_total_loss_input vin pt pv sv rq loss email phone = Ok v →
       "vin" ∈ error_fields v ↔ ¬ vin_shape (upper (strip vin))).
Proof.
  split_and!.
  - apply validate_vin_shape.
  - reflexivity.
  - apply (bool_decide_eq_true_1 (NoDup VIN_ALPHABET)). vm_compute.
    reflexivity.
  - intros c.
    rewrite <- (bool_decide_eq_true (c ∈ VIN_ALPHABET)).
    rewrite <- (bool_decide_eq_false (c ∈ ["I"; "O"; "Q"]%char)).
    destruct c as [[] [] [] [] [] [] [] []]; vm_compute; intuition congruence.
  - intros pt pv sv rq loss email phone v
      [-> _]%validate_total_loss_input_fields.
    rewrite <- validate_vin_shape. unfold expected_error_fields.
    rewrite <- (bool_decide_eq_true (_ ∈ _)).
    destruct (validate_vin vin), (validate_policy_type pt),
      (validate_loss_type loss), (accepted (policy_value_check pv)),
      (accepted (salvage_value_check sv)), (salvage_exceeds_policy sv pv),
      (accepted (repair_quote_check rq)),
      (present_and_invalid validate_email email),
      (present_and_invalid validate_phone phone);
      vm_compute; intuition congruence.
Qed.

(** ** Failed validation *)

(** When the validator returns an outcome with an error, the engine returns
    that outcome and no decision. *)
Lemma failed_validation_yields_no_decision now vin pt pv sv rq loss v :
  validate_total_loss_input vin pt pv sv rq loss None None = Ok v →
  is_valid v = false →
  calculate_total_loss now vin pt pv sv rq loss false = Ok (None, v).
Proof.
  intros Hv Hinvalid. unfold calculate_total_loss. simpl.
  rewrite Hv. simpl. by rewrite Hinvalid.
Qed.

(** The validator is called with every argument as given, so its exception
    is the engine's. *)
Lemma validation_exception_propagates now vin pt pv sv rq loss e :
  validate_total_loss_input vin pt pv sv rq loss None None = Raise e →
  calculate_total_loss now vin pt pv sv rq loss false = Raise e.
Proof. intros Hv. unfold calculate_total_loss. simpl. by rewrite Hv. Qed.

(** C3 (the code departs from the claim). With policy value 0 the
    policy-value rule rejects the input, and building the repair-quote
    warning then divides by that zero: the call raises ZeroDivisionError
    where the claim has it return no decision together with the outcome. *)
Theorem zero_policy_value_raises_instead_of_failing_validation (now : Z) :
  accepted (policy_value_check (Num (of_Z 0))) = false
  ∧ validate_total_loss_input "1HGBH41JXMN109186" "comprehensive"
      (Num (of_Z 0)) (Num (of_Z 0)) (Num (of_Z 5000)) "client" None None
    = Raise ZeroDivisionError
  ∧ calculate_total_loss now "1HGBH41JXMN109186" "comprehensive"
      (Num (of_Z 0)) (Num (of_Z 0)) (Num (of_Z 5000)) "client" false
    = Raise ZeroDivisionError.
Proof.
  assert (validate_total_loss_input "1HGBH41JXMN109186" "comprehensive"
            (Num (of_Z 0)) (Num (of_Z 0)) (Num (of_Z 5000)) "client" None None
          = Raise ZeroDivisionError) as Hv by (vm_compute; reflexivity).
  split_and!.
  - vm_compute; reflexivity.
  - exact Hv.
  - by apply validation_exception_propagates.
Qed.


(** C5 (the code departs from the claim). The loss-type rule compares the
    lower-cased string, so "CLIENT" passes validation with no error on
    "loss_type"; the engine compares the string as given and raises
    ValueError. *)
Theorem upper_case_loss_type_passes_validation (now : Z) :
  validate_loss_type "CLIENT" = true
  ∧ (∃ v, validate_total_loss_input "1HGBH41JXMN109186" "comprehensive"
            (Num (of_Z 20000)) (Num (of_Z 5000)) (Num (of_Z 15000)) "CLIENT"
            None None = Ok v
          ∧ is_valid v = true ∧ "loss_type" ∉ error_fields v)
  ∧ calculate_total_loss now "1HGBH41JXMN109186" "comprehensive"
      (Num (of_Z 20000)) (Num (of_Z 5000)) (Num (of_Z 15000)) "CLIENT" false
    = Raise (ValueError "Invalid loss type: CLIENT").
Proof.
  split_and!.
  - vm_compute; reflexivity.
  - eexists. split; [vm_compute; reflexivity |].
    split; [reflexivity |]. apply not_elem_of_nil.
  - unfold calculate_total_loss. simpl negb.
    assert (validate_total_loss_input "1HGBH41JXMN109186" "comprehensive"
              (Num (of_Z 20000)) (Num (of_Z 5000)) (Num (of_Z 15000)) "CLIENT"
              None None = Ok ValidationResult_init) as ->
      by (vm_compute; reflexivity).
    reflexivity.
Qed.

(** ** The batch runner *)

(** The loop returns exactly when every case evaluates without raising, and
    then pairs each case with its own outcome. *)
Lemma calculate_batch_from_Ok clock k cases results :
  calculate_batch_from clock k cases = Ok results ↔
  length results = length cases
  ∧ ∀ i c, cases !! i = Some c →
      ∃ outcome, evaluate (clock (k + i)) c = Ok outcome
                 ∧ results !! i = Some (make_entry c outcome).
Proof.
  revert k results. induction cases as [| c0 cases IH]; intros k results.
  - simpl. split.
    + intros [= <-]. split; [done |]. intros i c. by rewrite lookup_nil.
    + intros [Hlen _]. destruct results; [done | discriminate].
  - simpl. rewrite bind_Ok. split.
    + intros (outcome & Ho & (rest & Hrest & [= <-])%bind_Ok).
      apply IH in Hrest as [Hlen Hentries]. split; [simpl; congruence |].
      intros [| i] c; simpl.
      * intros [= <-]. exists outcome. by rewrite Nat.add_0_r.
      * intros Hc. destruct (Hentries i c Hc) as (o & Ho' & Hi).
        exists o. by rewrite Nat.add_succ_r.
    + intros [Hlen Hentries].
      destruct results as [| e rest]; [discriminate |].
      destruct (Hentries 0 c0 eq_refl) as (outcome & Ho & [= ->]).
      rewrite Nat.add_0_r in Ho. exists outcome. split; [done |].
      apply bind_Ok. exists rest. split; [| done].
      apply IH. split; [simpl in Hlen; congruence |].
      intros i c Hc. destruct (Hentries (S i) c Hc) as (o & Ho' & Hi).
      exists o. by rewrite Nat.add_succ_r in Ho'.
Qed.




(** A failed validation in the middle of a batch aborts nothing: the case
    gets an entry without result, its neighbours get their decisions. *)
Lemma batch_continues_past_failed_validation :
  ∃ e1 e2 e3,
    calculate_batch (λ _, 0%Z) [scenario_1; scenario_6; scenario_2]
    = Ok [e1; e2; e3]
    ∧ d_decision <$> entry_result e1 = Some "TOTAL LOSS"
    ∧ entry_result e2 = None
    ∧ entry_validation e2
      = Failed 1 [("repair_quote", CannotBeNegative "Repair Quote")]
    ∧ d_decision <$> entry_result e3 = Some "TOTAL LOSS".
Proof.
  eexists _, _, _. split; [vm_compute; reflexivity |].
  split_and!; reflexivity.
Qed.

(** * Further properties *)

(** ** Strings as lists of characters *)

Lemma chars_inj s1 s2 : chars s1 = chars s2 → s1 = s2.
Proof.
  intros H. rewrite <- (string_of_list_ascii_of_string s1),
    <- (string_of_list_ascii_of_string s2). unfold chars in H. by rewrite H.
Qed.

Lemma chars_of_list l : chars (string_of_list_ascii l) = l.
Proof. apply list_ascii_of_string_of_list_ascii. Qed.

Lemma chars_append s1 s2 : chars (s1 +:+ s2) = chars s1 ++ chars s2.
Proof.
  induction s1 as [| c s1 IH]; [done |].
  rewrite append_String. simpl. by rewrite IH.
Qed.

Lemma chars_length s : length (chars s) = String.length s.
Proof. induction s; simpl; congruence. Qed.

Lemma chars_rev_app s1 s2 :
  chars (String.rev_app s1 s2) = rev (chars s1) ++ chars s2.
Proof.
  revert s2. induction s1 as [| c s1 IH]; intros s2; simpl; [done |].
  rewrite IH. simpl. by rewrite <- app_assoc.
Qed.

Lemma chars_rev s : chars (String.rev s) = rev (chars s).
Proof. unfold String.rev. rewrite chars_rev_app. simpl. apply app_nil_r. Qed.

Lemma chars_lstrip s : chars (lstrip s) = drop_spaces (chars s).
Proof. induction s as [| c s IH]; simpl; [done |]. by destruct (isspace c). Qed.

Lemma chars_strip s :
  chars (strip s) = rev (drop_spaces (rev (drop_spaces (chars s)))).
Proof.
  unfold strip, rstrip. by rewrite chars_rev, chars_lstrip, chars_rev, chars_lstrip.
Qed.

Lemma chars_filter_chars keep s :
  chars (filter_chars keep s) = filter (λ c, keep c = true) (chars s).
Proof.
  induction s as [| c s IH]; simpl; [done |].
  destruct (keep c) eqn:Hk; simpl.
  - rewrite filter_cons_True by done. by rewrite IH.
  - rewrite filter_cons_False by congruence. done.
Qed.

Lemma chars_take_chars n s : chars (take_chars n s) = take n (chars s).
Proof.
  revert s. induction n as [| n IH]; intros [| c s]; simpl; try done.
  by rewrite IH.
Qed.

(** ** White space at the ends *)

Lemma drop_spaces_split l :
  ∃ sp, l = sp ++ drop_spaces l ∧ Forall (λ c, isspace c = true) sp.
Proof.
  induction l as [| c l (sp & Hl & Hsp)]; simpl.
  - by exists [].
  - destruct (isspace c) eqn:Hc.
    + exists (c :: sp). split; [simpl; congruence | by constructor].
    + by exists [].
Qed.

Lemma drop_spaces_fixed l :
  drop_spaces l = l ↔ ∀ c l', l = c :: l' → isspace c = false.
Proof.
  destruct l as [| c l]; simpl.
  - split; [by intros _ ?? | done].
  - destruct (isspace c) eqn:Hc.
    + split.
      * intros H. destruct (drop_spaces_split l) as (sp & Hl & _).
        apply (f_equal length) in H, Hl. rewrite length_app in Hl.
        simpl in H. lia.
      * intros H. specialize (H c l eq_refl). congruence.
    + split; [| done]. by intros _ ?? [= <- <-].
Qed.

Lemma drop_spaces_idem l : drop_spaces (drop_spaces l) = drop_spaces l.
Proof.
  induction l as [| c l IH]; simpl; [done |].
  destruct (isspace c) eqn:Hc; [done |]. simpl. by rewrite Hc.
Qed.

(** Dropping white space at the end keeps a non-space first character. *)
Lemma drop_spaces_rev_fixed m :
  drop_spaces m = m →
  drop_spaces (rev (drop_spaces (rev m))) = rev (drop_spaces (rev m)).
Proof.
  intros Hm. destruct (drop_spaces_split (rev m)) as (sp & Hrev & Hsp).
  set (t := rev (drop_spaces (rev m))).
  assert (m = t ++ rev sp) as Hsplit.
  { rewrite <- (rev_involutive m), Hrev, rev_app_distr. done. }
  apply drop_spaces_fixed. intros c l' Ht.
  apply (proj1 (drop_spaces_fixed m) Hm c (l' ++ rev sp)).
  rewrite Hsplit, Ht. done.
Qed.

Lemma strip_trimmed s : trimmed (strip s).
Proof.
  unfold trimmed. rewrite chars_strip, rev_involutive. split.
  - apply drop_spaces_rev_fixed, drop_spaces_idem.
  - apply drop_spaces_idem.
Qed.

Lemma trimmed_strip s : trimmed s → strip s = s.
Proof.
  intros [Hl Hr]. apply chars_inj.
  by rewrite chars_strip, Hl, Hr, rev_involutive.
Qed.

Lemma strip_idem s : strip (strip s) = strip s.
Proof. apply trimmed_strip, strip_trimmed. Qed.

(** [strip] removes white space at the two ends and nothing else. *)
Lemma strip_split s :
  ∃ sp1 sp2,
    chars s = sp1 ++ chars (strip s) ++ sp2
    ∧ Forall (λ c, isspace c = true) sp1
    ∧ Forall (λ c, isspace c = true) sp2.
Proof.
  destruct (drop_spaces_split (chars s)) as (sp1 & Hl & Hsp1).
  destruct (drop_spaces_split (rev (drop_spaces (chars s))))
    as (sp & Hr & Hsp).
  exists sp1, (rev sp). rewrite chars_strip. split_and!; [| done |].
  - rewrite <- rev_app_distr, <- Hr, rev_involutive. done.
  - by apply List.Forall_rev.
Qed.

Lemma drop_spaces_sublist l : sublist (drop_spaces l) l.
Proof.
  induction l as [| c l IH]; simpl; [done |].
  destruct (isspace c); [by apply sublist_cons | done].
Qed.

(** ** sanitize_input *)

Lemma take_chars_all n s : String.length s ≤ n → take_chars n s = s.
Proof.
  revert s. induction n as [| n IH]; intros [| c s]; simpl; try done; [lia |].
  intros ?. rewrite IH; [done | lia].
Qed.

Lemma filter_chars_all keep s :
  (∀ c, c ∈ chars s → keep c = true) → filter_chars keep s = s.
Proof.
  induction s as [| c s IH]; simpl; [done |]. intros Hall.
  rewrite (Hall c) by left. rewrite IH; [done |].
  intros c' ?. apply Hall. by right.
Qed.

Lemma slice_to_length n s :
  (0 ≤ n)%Z → (Z.of_nat (String.length (slice_to n s)) ≤ n)%Z.
Proof.
  intros Hn. unfold slice_to. rewrite (proj2 (Z.leb_le 0 n) Hn).
  rewrite <- chars_length, chars_take_chars, length_take. lia.
Qed.

Lemma slice_to_sublist n s : sublist (chars (slice_to n s)) (chars s).
Proof.
  unfold slice_to. destruct (0 <=? n)%Z; rewrite chars_take_chars;
    apply sublist_take.
Qed.

Lemma strip_sublist s : sublist (chars (strip s)) (chars s).
Proof.
  destruct (strip_split s) as (sp1 & sp2 & -> & _).
  apply sublist_inserts_l, sublist_inserts_r. done.
Qed.

Lemma filter_chars_sublist keep s :
  sublist (chars (filter_chars keep s)) (chars s).
Proof. rewrite chars_filter_chars. apply sublist_filter. Qed.

Lemma sanitize_input_sublist text max_length :
  sublist (chars (sanitize_input text max_length)) (chars text).
Proof.
  unfold sanitize_input. case_bool_decide; [apply sublist_nil_l |].
  etrans; [apply strip_sublist |]. etrans; [apply filter_chars_sublist |].
  etrans; [apply slice_to_sublist |]. apply filter_chars_sublist.
Qed.

Lemma sanitize_input_keeps text max_length c :
  c ∈ chars (sanitize_input text max_length) → keeps c = true.
Proof.
  unfold sanitize_input. case_bool_decide; [by intros ?%elem_of_nil |].
  intros Hc%(sublist_subseteq _ _ (strip_sublist _)).
  rewrite chars_filter_chars in Hc. by apply list_elem_of_filter in Hc as [? _].
Qed.

Lemma sanitize_input_trimmed text max_length :
  trimmed (sanitize_input text max_length).
Proof.
  unfold sanitize_input. case_bool_decide; [done | apply strip_trimmed].
Qed.

Lemma sanitize_input_length text max_length :
  (0 ≤ max_length)%Z →
  (Z.of_nat (String.length (sanitize_input text max_length)) ≤ max_length)%Z.
Proof.
  intros Hn. unfold sanitize_input. case_bool_decide; [simpl; lia |].
  set (t1 := remove_char "000" text).
  pose proof (slice_to_length max_length t1 Hn) as Hlen.
  pose proof (sublist_length _ _
                (filter_chars_sublist keeps (slice_to max_length t1))) as H2.
  pose proof (sublist_length _ _
                (strip_sublist (filter_chars keeps (slice_to max_length t1))))
    as H1.
  rewrite !chars_length in H1, H2. lia.
Qed.

Lemma keeps_spec c :
  keeps c = true ↔
  c ≠ "000"%char ∧ (c = "010"%char ∨ c = "009"%char ∨ (32 ≤ code c)%N).
Proof.
  unfold keeps. rewrite !orb_true_iff, !bool_decide_eq_true, N.leb_le.
  split; [| tauto]. intros H. split; [| tauto].
  intros ->. by destruct H as [[? | ?] | H].
Qed.

(** X1. Whatever the text and the limit, what [sanitize_input] returns is a
    subsequence of the text, holds no null byte and no control character
    other than newline and tab, has no white space at either end and, for a
    limit that is not negative, is no longer than the limit. *)
Theorem sanitize_input_is_clean (text : string) (max_length : Z) :
  sublist (chars (sanitize_input text max_length)) (chars text)
  ∧ (∀ c, c ∈ chars (sanitize_input text max_length) →
       c ≠ "000"%char
       ∧ (c = "010"%char ∨ c = "009"%char ∨ (32 ≤ code c)%N))
  ∧ trimmed (sanitize_input text max_length)
  ∧ ((0 ≤ max_length)%Z →
     (Z.of_nat (String.length (sanitize_input text max_length))
      ≤ max_length)%Z).
Proof.
  split_and!.
  - apply sanitize_input_sublist.
  - intros c Hc. by apply keeps_spec, (sanitize_input_keeps text max_length).
  - apply sanitize_input_trimmed.
  - apply sanitize_input_length.
Qed.

(** On a text within the limit that holds only printable characters,
    newlines and tabs, [sanitize_input] only trims. *)
Lemma sanitize_input_clean_text text max_length :
  (Z.of_nat (String.length text) ≤ max_length)%Z →
  (∀ c, c ∈ chars text → keeps c = true) →
  sanitize_input text max_length = strip text.
Proof.
  intros Hlen Hall. unfold sanitize_input. case_bool_decide as Hempty.
  { by subst text. }
  assert (remove_char "000" text = text) as ->.
  { apply filter_chars_all. intros c Hc. apply negb_true_iff.
    apply bool_decide_eq_false. intros ->. by specialize (Hall _ Hc). }
  assert (slice_to max_length text = text) as ->.
  { unfold slice_to. rewrite (proj2 (Z.leb_le 0 max_length)) by lia.
    apply take_chars_all. lia. }
  by rewrite filter_chars_all.
Qed.

(** X2. With a limit that is not negative, sanitising is idempotent: a
    sanitised text comes back unchanged. *)
Theorem sanitize_input_idempotent (text : string) (max_length : Z) :
  (0 ≤ max_length)%Z →
  sanitize_input (sanitize_input text max_length) max_length
  = sanitize_input text max_length.
Proof.
  intros Hn. rewrite sanitize_input_clean_text.
  - apply trimmed_strip, sanitize_input_trimmed.
  - by apply sanitize_input_length.
  - apply sanitize_input_keeps.
Qed.

(** A short text, with the default limit. *)
Lemma sanitize_input_idempotent_witness :
  sanitize_input (sanitize_input "Hello" 1000) 1000
  = sanitize_input "Hello" 1000.
Proof. apply sanitize_input_idempotent. lia. Defined.

(** ** The patterns of the contact fields *)

Lemma matches_Cat_Eps r s : matches (Cat Eps r) s = matches r s.
Proof.
  destruct s as [| c s]; simpl; [done |].
  by rewrite matches_Alt, matches_Cat_Void.
Qed.

Lemma all_chars_append p s1 s2 :
  all_chars p (s1 +:+ s2) ↔ all_chars p s1 ∧ all_chars p s2.
Proof.
  unfold all_chars. split.
  - intros H. split; intros c Hc; apply H; rewrite chars_append, elem_of_app;
      auto.
  - intros [H1 H2] c. rewrite chars_append, elem_of_app. intros [? | ?]; auto.
Qed.

Lemma all_chars_String p c s :
  all_chars p (String c s) ↔ p c = true ∧ all_chars p s.
Proof.
  unfold all_chars. simpl. split.
  - intros H. split; [apply H; left | intros c' ?; apply H; by right].
  - intros [Hc Hs] c' [-> | ?]%elem_of_cons; auto.
Qed.

Lemma all_chars_empty p : all_chars p "".
Proof. by intros c ?%elem_of_nil. Qed.

Lemma matches_Star_Class p s :
  matches (Star (Class p)) s = true ↔ all_chars p s.
Proof.
  induction s as [| c s IH].
  - split; [intros _; apply all_chars_empty | done].
  - rewrite all_chars_String. simpl. destruct (p c) eqn:Hp.
    + rewrite matches_Cat_Eps, IH. tauto.
    + rewrite matches_Cat_Void. split; [done | by intros [? _]].
Qed.

Lemma matches_Plus_Class p s :
  matches (Plus (Class p)) s = true ↔ s ≠ "" ∧ all_chars p s.
Proof.
  unfold Plus. rewrite matches_Cat. split.
  - intros (s1 & s2 & -> & (c & -> & Hc)%matches_Class
            & Hs2%matches_Star_Class).
    rewrite append_String, append_empty_l. split; [done |].
    by apply all_chars_String.
  - intros [Hne Hall]. destruct s as [| c s]; [done |].
    apply all_chars_String in Hall as [Hc Hs].
    exists (String c ""), s. split_and!; [done | |].
    + apply matches_Class. by exists c.
    + by apply matches_Star_Class.
Qed.

Lemma matches_Lit c s : matches (Lit c) s = true ↔ s = String c "".
Proof.
  unfold Lit. rewrite matches_Class. split.
  - by intros (c' & -> & ->%bool_decide_eq_true).
  - intros ->. exists c. split; [done | by apply bool_decide_eq_true].
Qed.

(** [[p]{n,}]: at least [n] characters, each in the class. *)
Lemma matches_RepMin_Class p n s :
  matches (RepMin n (Class p)) s = true ↔
  n ≤ String.length s ∧ all_chars p s.
Proof.
  unfold RepMin. rewrite matches_Cat. split.
  - intros (s1 & s2 & -> & [Hlen Hall1]%matches_Rep_Class
            & Hall2%matches_Star_Class).
    rewrite length_append, all_chars_append. split; [lia | done].
  - intros [Hlen Hall].
    exists (string_of_list_ascii (take n (chars s))),
           (string_of_list_ascii (drop n (chars s))).
    assert (s = string_of_list_ascii (take n (chars s))
                +:+ string_of_list_ascii (drop n (chars s))) as Hs.
    { apply chars_inj. by rewrite chars_append, !chars_of_list, take_drop. }
    split; [done |]. rewrite Hs in Hall.
    apply all_chars_append in Hall as [H1 H2]. split.
    + apply matches_Rep_Class. split; [| done].
      rewrite <- chars_length, chars_of_list, length_take, chars_length. lia.
    + by apply matches_Star_Class.
Qed.

(** On a string without white space at its end, [$] is the end. *)
Lemma re_match_trimmed r s :
  drop_spaces (rev (chars s)) = rev (chars s) →
  re_match r s = matches r s.
Proof.
  intros Hend. unfold re_match.
  destruct (matches r s) eqn:Hm.
  - apply matches_Cat. exists s, "". by rewrite append_empty_r.
  - apply not_true_is_false.
    intros (s1 & s2 & -> & H1 & H2)%matches_Cat.
    unfold Opt in H2. rewrite matches_Alt, matches_Eps in H2.
    apply orb_true_iff in H2 as [->%bool_decide_eq_true | ->%matches_Lit].
    + rewrite append_empty_r in Hm. congruence.
    + rewrite chars_append, rev_app_distr in Hend. simpl in Hend.
      apply (f_equal length) in Hend. simpl in Hend.
      pose proof (sublist_length _ _ (drop_spaces_sublist (rev (chars s1)))).
      lia.
Qed.

Lemma matches_Cat_Class p r s :
  matches (Cat (Class p) r) s = true ↔
  ∃ c s', s = String c s' ∧ p c = true ∧ matches r s' = true.
Proof.
  rewrite matches_Cat. split.
  - intros (s1 & s2 & -> & (c & -> & Hc)%matches_Class & H2).
    exists c, s2. by rewrite append_String, append_empty_l.
  - intros (c & s' & -> & Hc & Hs). exists (String c ""), s'.
    split_and!; [done | | done]. apply matches_Class. by exists c.
Qed.

Lemma matches_Cat_Lit c r s :
  matches (Cat (Lit c) r) s = true ↔
  ∃ s', s = String c s' ∧ matches r s' = true.
Proof.
  unfold Lit. rewrite matches_Cat_Class. split.
  - intros (c' & s' & -> & ->%bool_decide_eq_true & Hs). by exists s'.
  - intros (s' & -> & Hs). exists c, s'.
    split_and!; [done | by apply bool_decide_eq_true | done].
Qed.

Lemma email_pattern_shape s :
  matches email_pattern s = true ↔ email_shape s.
Proof.
  unfold email_pattern, email_shape. rewrite matches_Cat. split.
  - intros (local & s1 & -> & [Hne Hlocal]%matches_Plus_Class
            & (s2 & -> & H2)%matches_Cat_Lit).
    apply matches_Cat in H2
      as (domain & s3 & -> & [Hdne Hdom]%matches_Plus_Class
          & (tld & -> & [Hlen Htld]%matches_RepMin_Class)%matches_Cat_Lit).
    exists local, domain, tld. split_and!; try done.
  - intros (local & domain & tld & -> & Hne & Hlocal & Hdne & Hdom & Hlen
            & Htld).
    exists local, ("@" +:+ domain +:+ "." +:+ tld).
    split_and!; [done | by apply matches_Plus_Class |].
    apply matches_Cat_Lit. eexists. split; [reflexivity |].
    apply matches_Cat. exists domain, ("." +:+ tld).
    split_and!; [done | by apply matches_Plus_Class |].
    apply matches_Cat_Lit. eexists. split; [reflexivity |].
    by apply matches_RepMin_Class.
Qed.

(** X3. [validate_email] accepts exactly the strings that, trimmed, read
    [local@domain.tld]: a non-empty local part of letters, digits and
    [._%+-], a non-empty domain of letters, digits, dots and dashes, and
    after its last dot at least two letters. *)
Theorem validate_email_accepts_exactly_the_shape (email : string) :
  validate_email email = true ↔ email_shape (strip email).
Proof.
  unfold validate_email. case_bool_decide as Hempty.
  - subst email. split; [done |].
    intros (local & domain & tld & Hs & Hne & _).
    destruct local; [done | discriminate].
  - rewrite re_match_trimmed by apply strip_trimmed.
    apply email_pattern_shape.
Qed.

Lemma phone_digits_no_space phone :
  drop_spaces (rev (chars (phone_digits phone)))
  = rev (chars (phone_digits phone)).
Proof.
  apply drop_spaces_fixed. intros c l' Hrev.
  assert (c ∈ chars (phone_digits phone)) as Hc.
  { apply list_elem_of_In, in_rev, list_elem_of_In. rewrite Hrev. left. }
  unfold phone_digits in Hc. rewrite chars_filter_chars in Hc.
  apply list_elem_of_filter in Hc as [Hk _].
  apply negb_true_iff, orb_false_iff in Hk as [? _]. done.
Qed.

Lemma phone_tail_shape s :
  matches (Cat (Class area_digit) (Rep 8 (Class isdigit))) s = true ↔
  ∃ area rest, s = String area rest ∧ area_digit area = true
               ∧ String.length rest = 8 ∧ all_chars isdigit rest.
Proof.
  rewrite matches_Cat_Class. split.
  - intros (c & s' & -> & Hc & [Hlen Hall]%matches_Rep_Class).
    by exists c, s'.
  - intros (c & s' & -> & Hc & Hlen & Hall). exists c, s'.
    split_and!; [done.. |]. by apply matches_Rep_Class.
Qed.

Lemma phone_patterns_shape s :
  existsb (λ pattern, matches pattern s) phone_patterns = true ↔
  phone_shape s.
Proof.
  unfold phone_patterns, phone_shape. simpl. rewrite orb_false_r.
  rewrite orb_true_iff. split.
  - intros [H | H].
    + apply matches_Cat in H as (s1 & s2 & -> & H1 & H2).
      apply matches_Cat_Lit in H2 as (s3 & -> & H2).
      apply matches_Cat_Lit in H2 as (s4 & -> & H2).
      apply phone_tail_shape in H2 as (area & rest & -> & Ha & Hlen & Hall).
      unfold Opt in H1. rewrite matches_Alt, matches_Eps in H1.
      apply orb_true_iff in H1 as [->%bool_decide_eq_true | ->%matches_Lit].
      * exists "61", area, rest. split_and!; auto.
      * exists "+61", area, rest. split_and!; auto.
    + apply matches_Cat_Lit in H as (s1 & -> & H).
      apply phone_tail_shape in H as (area & rest & -> & Ha & Hlen & Hall).
      exists "0", area, rest. split_and!; auto.
  - intros (prefix & area & rest & -> & Hprefix & Ha & Hlen & Hall).
    assert (matches (Cat (Class area_digit) (Rep 8 (Class isdigit)))
              (String area rest) = true) as Htail.
    { apply phone_tail_shape. by exists area, rest. }
    destruct Hprefix as [-> | [-> | ->]].
    + right. apply matches_Cat_Lit. by eexists.
    + left. apply matches_Cat. exists "", ("61" +:+ String area rest).
      split_and!; [done | done |].
      apply matches_Cat_Lit. eexists. split; [reflexivity |].
      apply matches_Cat_Lit. by eexists.
    + left. apply matches_Cat. exists "+", ("61" +:+ String area rest).
      split_and!; [done | done |].
      apply matches_Cat_Lit. eexists. split; [reflexivity |].
      apply matches_Cat_Lit. by eexists.
Qed.

Lemma phone_patterns_on_digits phone :
  existsb (λ pattern, re_match pattern (phone_digits phone)) phone_patterns
  = true ↔ phone_shape (phone_digits phone).
Proof.
  rewrite <- phone_patterns_shape.
  assert (∀ l, existsb (λ pattern, re_match pattern (phone_digits phone)) l
               = existsb (λ pattern, matches pattern (phone_digits phone)) l)
    as ->; [| done].
  intros l. induction l as [| r l IH]; simpl; [done |].
  by rewrite IH, (re_match_trimmed r _ (phone_digits_no_space phone)).
Qed.

(** X4. [validate_phone] ignores white space, dashes and parentheses
    wherever they stand, and accepts exactly the numbers whose remaining
    characters are the prefix 0, 61 or +61, one area digit among 2, 3, 4, 5,
    7 and 8, and eight digits. *)
Theorem validate_phone_accepts_exactly_the_shape (phone : string) :
  validate_phone phone = true ↔ phone_shape (phone_digits phone).
Proof.
  unfold validate_phone. fold (phone_digits phone).
  case_bool_decide as Hempty.
  - subst phone. split; [done |].
    intros (prefix & area & rest & Hs & _).
    destruct prefix; discriminate.
  - apply phone_patterns_on_digits.
Qed.

(** ** Monetary values *)



Lemma no_fields_init v :
  error_fields v = [] → warning_fields v = [] → v = ValidationResult_init.
Proof.
  destruct v as [es ws]. unfold error_fields, warning_fields. simpl.
  intros ->%fmap_nil_inv ->%fmap_nil_inv. done.
Qed.

Lemma accepted_is_number value field_name min_value max_value :
  validate_monetary_value value field_name min_value max_value = Accepted →
  ∃ x, value = Num x.
Proof. destruct value as [x | []]; [by exists x | done | done]. Qed.

Lemma validate_loss_type_exact loss :
  loss = "client" ∨ loss = "third_party" → validate_loss_type loss = true.
Proof. by intros [-> | ->]. Qed.

(** X6. A NaN policy value is not rejected: with an accepted identifier and
    policy type, a loss type of the two, and a salvage value and repair quote
    that pass their own checks, validation reports no error and no warning,
    the threshold is NaN and the vehicle is judged repairable whatever the
    repair quote. *)
Theorem nan_policy_value_passes_validation
    (now : Z) (vin pt loss : string) (sv rq : any) :
  validate_vin vin = true →
  validate_policy_type pt = true →
  loss = "client" ∨ loss = "third_party" →
  salvage_value_check sv = Accepted →
  repair_quote_check rq = Accepted →
  ∃ r, calculate_total_loss now vin pt (Num NaN) sv rq loss false
       = Ok (Some r, ValidationResult_init)
       ∧ threshold r = NaN ∧ is_total_loss r = false.
Proof.
  intros Hvin Hpt Hloss Hsv Hrq.
  destruct (accepted_is_number _ _ _ _ Hsv) as [s ->].
  destruct (accepted_is_number _ _ _ _ Hrq) as [q ->].
  pose proof (validate_total_loss_input_returns vin pt (Num NaN) (Num s)
                (Num q) loss None None) as Hret.
  assert (warning_divides_by_zero (Num NaN) (Num q) = false) as Hz.
  { unfold warning_divides_by_zero, zero_policy. simpl. apply andb_false_r. }
  rewrite Hz in Hret. destruct Hret as [v Hv].
  destruct (validate_total_loss_input_fields _ _ _ _ _ _ _ _ _ Hv) as [He Hw].
  assert (float_lt NaN s = false) as Hs by by destruct s.
  assert (v = ValidationResult_init) as ->.
  { apply no_fields_init.
    - rewrite He. unfold expected_error_fields, salvage_exceeds_policy.
      rewrite Hvin, Hpt, (validate_loss_type_exact loss Hloss), Hsv, Hrq.
      cbn [float]. unfold float_gt. by rewrite Hs.
    - rewrite Hw. unfold expected_warning_fields, repair_exceeds_ratio.
      cbn [float]. unfold float_gt. cbn [float_mul].
      by destruct q; rewrite andb_false_r. }
  destruct (calculate_total_loss_decides now vin pt NaN s q loss false
              ValidationResult_init) as (r & Hr & Hth & Hd); [done | done |].
  exists r. split; [done |].
  assert (threshold r = NaN) as Hnan.
  { rewrite Hth. destruct (get_threshold_fraction pt) as (f & -> & _).
    by case_bool_decide. }
  split; [done |]. rewrite Hd, Hnan. by destruct q.
Qed.

Lemma nan_policy_value_passes_validation_witness :
  ∃ r, calculate_total_loss 0 "1HGBH41JXMN109186" "comprehensive" (Num NaN)
         (Num (of_Z 5000)) (Num (of_Z 900000)) "client" false
       = Ok (Some r, ValidationResult_init)
       ∧ threshold r = NaN ∧ is_total_loss r = false.
Proof.
  apply (nan_policy_value_passes_validation 0 "1HGBH41JXMN109186"
           "comprehensive" "client" (Num (of_Z 5000)) (Num (of_Z 900000)));
    [reflexivity | reflexivity | by left | reflexivity | reflexivity].
Defined.

(** ** What a validation outcome lists *)

Lemma sublist_optional {A} (b : bool) (x : A) :
  sublist (if b then [] else [x]) [x].
Proof. destruct b; [apply sublist_nil_l | done]. Qed.

Lemma sublist_optional' {A} (b : bool) (x : A) :
  sublist (if b then [x] else []) [x].
Proof. destruct b; [done | apply sublist_nil_l]. Qed.

Lemma expected_error_fields_order vin pt pv sv rq loss email phone :
  sublist (expected_error_fields vin pt pv sv rq loss email phone) RULE_ORDER.
Proof.
  unfold expected_error_fields, RULE_ORDER.
  change ["vin"; "policy_type"; "loss_type"; "policy_value"; "salvage_value";
          "repair_quote"; "owner_email"; "owner_phone"]
    with (["vin"] ++ ["policy_type"] ++ ["loss_type"] ++ ["policy_value"]
          ++ ["salvage_value"] ++ ["repair_quote"] ++ ["owner_email"]
          ++ ["owner_phone"]).
  repeat apply sublist_app;
    try apply sublist_optional; try apply sublist_optional'.
  destruct (accepted _); [apply sublist_optional' | done].
Qed.

(** X7. Every outcome [validate_total_loss_input] returns lists its errors
    in the order of the rules, vin, policy_type, loss_type, policy_value,
    salvage_value, repair_quote, owner_email, owner_phone, with at most one
    error on a field (a salvage value is reported either by its own check or
    for exceeding the policy value, never both), and carries at most one
    warning, on repair_quote, which then has no error. *)
Theorem errors_follow_the_rule_order
    (vin pt : string) (pv sv rq : any) (loss : string)
    (email phone : option string) (v : ValidationResult) :
  validate_total_loss_input vin pt pv sv rq loss email phone = Ok v →
  sublist (error_fields v) RULE_ORDER
  ∧ NoDup (error_fields v)
  ∧ (warning_fields v = []
     ∨ warning_fields v = ["repair_quote"] ∧ "repair_quote" ∉ error_fields v).
Proof.
  intros Hv.
  destruct (validate_total_loss_input_fields _ _ _ _ _ _ _ _ _ Hv) as [He Hw].
  assert (sublist (error_fields v) RULE_ORDER) as Hsub.
  { rewrite He. apply expected_error_fields_order. }
  split_and!; [done | |].
  - eapply sublist_NoDup; [| exact Hsub].
    apply (bool_decide_eq_true_1 (NoDup RULE_ORDER)). reflexivity.
  - rewrite Hw, He. unfold expected_warning_fields, expected_error_fields.
    destruct (accepted (repair_quote_check rq)); [| by left].
    destruct (repair_exceeds_ratio rq pv); [right | by left].
    split; [done |]. rewrite app_nil_l.
    rewrite !not_elem_of_app.
    split_and!;
      repeat match goal with
             | |- context [if ?b then _ else _] => destruct b
             end;
      first [ apply not_elem_of_nil
            | by intros ?%list_elem_of_singleton ].
Qed.

Lemma errors_follow_the_rule_order_witness :
  ∃ v, validate_total_loss_input "" "fleet" (Num (of_Z 20000))
         (Num (of_Z 30000)) (NotNum NotParsable) "client" (Some "nobody")
         None = Ok v
       ∧ sublist (error_fields v) RULE_ORDER
       ∧ NoDup (error_fields v)
       ∧ (warning_fields v = []
          ∨ warning_fields v = ["repair_quote"]
            ∧ "repair_quote" ∉ error_fields v).
Proof.
  eexists. split; [vm_compute; reflexivity |].
  apply (errors_follow_the_rule_order "" "fleet" (Num (of_Z 20000))
           (Num (of_Z 30000)) (NotNum NotParsable) "client" (Some "nobody")
           None).
  vm_compute. reflexivity.
Defined.

(** ** When validation raises *)





(** ** The outcomes of the engine *)

Lemma valid_outcome_numbers vin pt pv sv rq loss v :
  validate_total_loss_input vin pt pv sv rq loss None None = Ok v →
  is_valid v = true →
  ∃ p s q, pv = Num p ∧ sv = Num s ∧ rq = Num q.
Proof.
  intros Hv Hvalid.
  destruct (passes_validation_checks vin pt pv sv rq loss)
    as (_ & _ & _ & Hp & Hs & _ & Hq); [by exists v |].
  destruct (accepted_is_number _ _ _ _ Hp) as [p ->].
  destruct (accepted_is_number _ _ _ _ Hs) as [s ->].
  destruct (accepted_is_number _ _ _ _ Hq) as [q ->].
  by exists p, s, q.
Qed.

Lemma unknown_loss_type_raises now vin pt p s q loss (skip : bool) v :
  (if skip then v = ValidationResult_init
   else validate_total_loss_input vin pt (Num p) (Num s) (Num q) loss None None
        = Ok v ∧ is_valid v = true) →
  ¬ (loss = "client" ∨ loss = "third_party") →
  calculate_total_loss now vin pt (Num p) (Num s) (Num q) loss skip
  = Raise (ValueError ("Invalid loss type: " +:+ loss)).
Proof.
  intros Hv Hloss. unfold calculate_total_loss.
  assert ((if negb skip
           then validate_total_loss_input vin pt (Num p) (Num s) (Num q) loss
                  None None
           else Ok ValidationResult_init) = Ok v) as ->.
  { destruct skip; simpl; [by subst v | by destruct Hv]. }
  simpl.
  assert (negb skip && negb (is_valid v) = false) as ->.
  { destruct skip; simpl; [done |]. destruct Hv as [_ ->]. done. }
  rewrite !bool_decide_eq_false_2; [done | tauto..].
Qed.

(** X9. The four outcomes of [calculate_total_loss] with validation.  When
    the validator raises, the engine raises the same exception; when the
    outcome has an error, the engine returns it with no decision; when the
    outcome is valid and the loss type is exactly client or third_party, the
    engine returns a decision: the conversions and the result constructor
    never raise after a passed validation; when the outcome is valid and the
    loss type is spelled otherwise, the engine raises ValueError. *)
Theorem validated_call_outcomes
    (now : Z) (vin pt : string) (pv sv rq : any) (loss : string) :
  match validate_total_loss_input vin pt pv sv rq loss None None with
  | Raise e => calculate_total_loss now vin pt pv sv rq loss false = Raise e
  | Ok v =>
      if is_valid v then
        if bool_decide (loss = "client" ∨ loss = "third_party") then
          ∃ r, calculate_total_loss now vin pt pv sv rq loss false
               = Ok (Some r, v)
        else
          calculate_total_loss now vin pt pv sv rq loss false
          = Raise (ValueError ("Invalid loss type: " +:+ loss))
      else calculate_total_loss now vin pt pv sv rq loss false = Ok (None, v)
  end.
Proof.
  destruct (validate_total_loss_input vin pt pv sv rq loss None None)
    as [v | e] eqn:Hv.
  - destruct (is_valid v) eqn:Hvalid.
    + destruct (valid_outcome_numbers _ _ _ _ _ _ _ Hv Hvalid)
        as (p & s & q & -> & -> & ->).
      case_bool_decide as Hloss.
      * destruct (calculate_total_loss_decides now vin pt p s q loss false v)
          as (r & Hr & _); [done | done |]. by exists r.
      * by apply (unknown_loss_type_raises now vin pt p s q loss false v).
    + by apply failed_validation_yields_no_decision.
  - by apply validation_exception_propagates.
Qed.


(** ** Margin and monotonicity *)

Lemma float_gt_sub x y :
  float_gt x y = float_gt (float_sub x y) (of_Z 0).
Proof.
  destruct x as [a | | |], y as [b | | |]; try done.
  unfold float_gt, of_Z. cbn [float_sub float_lt].
  apply bool_decide_ext. split; intros H; qc_lra.
Qed.

(** X11. The sign of the decision margin is the decision: in every decision
    the engine returns, [is_total_loss] holds exactly when
    [decision_margin] is above zero, also for infinite amounts and NaN. *)
Theorem decision_margin_positive_iff_total_loss
    (now : Z) (vin pt : string) (pv sv rq : any) (loss : string)
    (skip : bool) (r : ValuationResult) (v : ValidationResult) :
  calculate_total_loss now vin pt pv sv rq loss skip = Ok (Some r, v) →
  is_total_loss r = float_gt (decision_margin r) (of_Z 0).
Proof.
  intros Hr.
  destruct (calculate_total_loss_Some _ _ _ _ _ _ _ _ _ _ Hr)
    as (p & s & q & _ & _ & _ & _ & Hd & _ & _ & _ & _ & Hm & _).
  rewrite Hd, Hm. apply float_gt_sub.
Qed.

Lemma decision_margin_positive_iff_total_loss_witness :
  ∃ r v,
    calculate_total_loss 0 "1HGBH41JXMN109186" "comprehensive"
      (Num (of_Z 20000)) (Num (of_Z 5000)) (Num (of_Z 15000)) "client" false
    = Ok (Some r, v)
    ∧ is_total_loss r = float_gt (decision_margin r) (of_Z 0).
Proof.
  assert (∃ r v,
            calculate_total_loss 0 "1HGBH41JXMN109186" "comprehensive"
              (Num (of_Z 20000)) (Num (of_Z 5000)) (Num (of_Z 15000))
              "client" false = Ok (Some r, v)) as (r & v & Hr).
  { eexists _, _. vm_compute. reflexivity. }
  exists r, v. split; [exact Hr |].
  exact (decision_margin_positive_iff_total_loss _ _ _ _ _ _ _ _ r v Hr).
Defined.

Lemma calculate_total_loss_threshold now vin pt pv sv rq loss skip r v :
  calculate_total_loss now vin pt pv sv rq loss skip = Ok (Some r, v) →
  ∃ p s q,
    pv = Num p ∧ sv = Num s ∧ rq = Num q
    ∧ (loss = "client" ∨ loss = "third_party")
    ∧ threshold r
      = float_mul (if bool_decide (loss = "client") then p else float_sub p s)
          (config.get_threshold pt)
    ∧ is_total_loss r = float_gt q (threshold r).
Proof.
  intros Hr.
  destruct (calculate_total_loss_Some _ _ _ _ _ _ _ _ _ _ Hr)
    as (p & s & q & Hp & Hs & Hq & Hth & Hd & _).
  exists p, s, q.
  destruct pv as [p' | []]; try done. destruct sv as [s' | []]; try done.
  destruct rq as [q' | []]; try done.
  injection Hp as ->. injection Hs as ->. injection Hq as ->.
  split_and!; [done.. | | | done].
  - destruct Hth as [[-> _] | [-> _]]; [by left | by right].
  - by destruct Hth as [[-> ->] | [-> ->]].
Qed.

(** X12. The decision is monotone in the repair quote: with every other
    argument the same, the threshold does not depend on the quote, and when a
    quote is a total loss every higher quote is one too. *)
Theorem total_loss_monotone_in_repair_quote
    (now now' : Z) (vin pt : string) (pv sv : any) (q1 q2 : Qc)
    (loss : string) (skip : bool) (r1 r2 : ValuationResult)
    (v1 v2 : ValidationResult) :
  calculate_total_loss now vin pt pv sv (Num (Fin q1)) loss skip
  = Ok (Some r1, v1) →
  calculate_total_loss now' vin pt pv sv (Num (Fin q2)) loss skip
  = Ok (Some r2, v2) →
  (q1 <= q2)%Qc →
  threshold r2 = threshold r1
  ∧ (is_total_loss r1 = true → is_total_loss r2 = true).
Proof.
  intros H1 H2 Hle.
  destruct (calculate_total_loss_threshold _ _ _ _ _ _ _ _ _ _ H1)
    as (p & s & q & -> & -> & [= <-] & _ & Ht1 & Hd1).
  destruct (calculate_total_loss_threshold _ _ _ _ _ _ _ _ _ _ H2)
    as (p' & s' & q' & [= <-] & [= <-] & [= <-] & _ & Ht2 & Hd2).
  assert (threshold r2 = threshold r1) as Heq by by rewrite Ht1, Ht2.
  split; [done |]. rewrite Hd1, Hd2, Heq.
  destruct (threshold r1) as [t | | |]; try done.
  unfold float_gt. rewrite !float_lt_Fin. intros Ht. qc_lra.
Qed.

Lemma total_loss_monotone_in_repair_quote_witness :
  ∃ r1 r2 v1 v2,
    calculate_total_loss 0 "1HGBH41JXMN109186" "comprehensive"
      (Num (of_Z 20000)) (Num (of_Z 5000)) (Num (of_Z 15000)) "client" false
    = Ok (Some r1, v1)
    ∧ calculate_total_loss 1 "1HGBH41JXMN109186" "comprehensive"
        (Num (of_Z 20000)) (Num (of_Z 5000)) (Num (of_Z 16000)) "client" false
      = Ok (Some r2, v2)
    ∧ threshold r2 = threshold r1
    ∧ (is_total_loss r1 = true → is_total_loss r2 = true).
Proof.
  assert (∃ r1 v1,
            calculate_total_loss 0 "1HGBH41JXMN109186" "comprehensive"
              (Num (of_Z 20000)) (Num (of_Z 5000)) (Num (of_Z 15000))
              "client" false = Ok (Some r1, v1)) as (r1 & v1 & H1).
  { eexists _, _. vm_compute. reflexivity. }
  assert (∃ r2 v2,
            calculate_total_loss 1 "1HGBH41JXMN109186" "comprehensive"
              (Num (of_Z 20000)) (Num (of_Z 5000)) (Num (of_Z 16000))
              "client" false = Ok (Some r2, v2)) as (r2 & v2 & H2).
  { eexists _, _. vm_compute. reflexivity. }
  exists r1, r2, v1, v2. split; [exact H1 |]. split; [exact H2 |].
  apply (total_loss_monotone_in_repair_quote 0 1 "1HGBH41JXMN109186"
           "comprehensive" (Num (of_Z 20000)) (Num (of_Z 5000))
           (Q2Qc (15000 # 1)) (Q2Qc (16000 # 1)) "client" false r1 r2 v1 v2
           H1 H2).
  vm_compute. discriminate.
Defined.

(** X13. The salvage value matters for third-party losses only.  For a
    client loss the threshold and the decision are the same whatever the
    salvage value; for a third-party loss on finite amounts a higher salvage
    value gives a threshold that is not higher, so a total loss stays one. *)
Theorem salvage_value_only_lowers_third_party_threshold
    (now now' : Z) (vin pt : string) (pv sv sv' rq : any) (loss : string)
    (skip : bool) (r r' : ValuationResult) (v v' : ValidationResult) :
  calculate_total_loss now vin pt pv sv rq loss skip = Ok (Some r, v) →
  calculate_total_loss now' vin pt pv sv' rq loss skip = Ok (Some r', v') →
  (loss = "client" →
   threshold r' = threshold r ∧ is_total_loss r' = is_total_loss r)
  ∧ (loss = "third_party" →
     ∀ p s s' : Qc,
       pv = Num (Fin p) → sv = Num (Fin s) → sv' = Num (Fin s') →
       (s <= s')%Qc →
       float_gt (threshold r') (threshold r) = false
       ∧ (is_total_loss r = true → is_total_loss r' = true)).
Proof.
  intros H1 H2.
  destruct (calculate_total_loss_threshold _ _ _ _ _ _ _ _ _ _ H1)
    as (p & s & q & -> & -> & -> & _ & Ht1 & Hd1).
  destruct (calculate_total_loss_threshold _ _ _ _ _ _ _ _ _ _ H2)
    as (p' & s' & q' & [= <-] & -> & [= <-] & _ & Ht2 & Hd2).
  split.
  - intros ->. rewrite bool_decide_eq_true_2 in Ht1, Ht2 by done.
    assert (threshold r' = threshold r) as Heq by by rewrite Ht1, Ht2.
    split; [done |]. by rewrite Hd1, Hd2, Heq.
  - intros -> a b b' [= ->] [= ->] [= ->] Hle.
    rewrite bool_decide_eq_false_2 in Ht1, Ht2 by done.
    destruct (get_threshold_fraction pt) as (f & Hf & Hpos & _).
    rewrite Hf in Ht1, Ht2. cbn [float_sub float_mul] in Ht1, Ht2.
    rewrite Hd1, Hd2, Ht1, Ht2.
    assert ((a - b') * f <= (a - b) * f)%Qc as Hth.
    { qc_to_q. simpl in *. nra. }
    split.
    + unfold float_gt. by apply float_lt_Fin_false.
    + destruct q as [c | | |]; try done.
      unfold float_gt. rewrite !float_lt_Fin. intros Hc.
      eapply Qcle_lt_trans; [exact Hth | exact Hc].
Qed.

Lemma salvage_value_only_lowers_third_party_threshold_witness :
  ∃ r r' v v',
    calculate_total_loss 0 "2HGBH41JXMN109187" "comprehensive"
      (Num (of_Z 25000)) (Num (of_Z 7000)) (Num (of_Z 13000)) "third_party"
      false = Ok (Some r, v)
    ∧ calculate_total_loss 1 "2HGBH41JXMN109187" "comprehensive"
        (Num (of_Z 25000)) (Num (of_Z 9000)) (Num (of_Z 13000)) "third_party"
        false = Ok (Some r', v')
    ∧ float_gt (threshold r') (threshold r) = false
    ∧ (is_total_loss r = true → is_total_loss r' = true).
Proof.
  assert (∃ r v,
            calculate_total_loss 0 "2HGBH41JXMN109187" "comprehensive"
              (Num (of_Z 25000)) (Num (of_Z 7000)) (Num (of_Z 13000))
              "third_party" false = Ok (Some r, v)) as (r & v & H1).
  { eexists _, _. vm_compute. reflexivity. }
  assert (∃ r' v',
            calculate_total_loss 1 "2HGBH41JXMN109187" "comprehensive"
              (Num (of_Z 25000)) (Num (of_Z 9000)) (Num (of_Z 13000))
              "third_party" false = Ok (Some r', v')) as (r' & v' & H2).
  { eexists _, _. vm_compute. reflexivity. }
  exists r, r', v, v'. split; [exact H1 |]. split; [exact H2 |].
  apply (proj2 (salvage_value_only_lowers_third_party_threshold 0 1
                  "2HGBH41JXMN109187" "comprehensive" (Num (of_Z 25000))
                  (Num (of_Z 7000)) (Num (of_Z 9000)) (Num (of_Z 13000))
                  "third_party" false r r' v v' H1 H2) eq_refl
           (Q2Qc (25000 # 1)) (Q2Qc (7000 # 1)) (Q2Qc (9000 # 1))
           eq_refl eq_refl eq_refl).
  vm_compute. discriminate.
Defined.

(** X14. Bounds of a validated decision on finite amounts: the threshold is
    a number from zero to strictly below the policy value; a repair quote of
    zero is never a total loss; a repair quote at or above the policy value
    always is one. *)
Theorem validated_threshold_below_policy_value
    (now : Z) (vin pt : string) (p s q : Qc) (loss : string)
    (r : ValuationResult) (v : ValidationResult) :
  calculate_total_loss now vin pt (Num (Fin p)) (Num (Fin s)) (Num (Fin q))
    loss false = Ok (Some r, v) →
  ∃ t, threshold r = Fin t
       ∧ (0 <= t)%Qc ∧ (t < p)%Qc
       ∧ (q = 0%Qc → is_total_loss r = false)
       ∧ ((p <= q)%Qc → is_total_loss r = true).
Proof.
  intros Hr.
  destruct (calculate_total_loss_Some _ _ _ _ _ _ _ _ _ _ Hr)
    as (p' & s' & q' & [= <-] & [= <-] & [= <-] & _ & _ & _ & _ & _ & _ & _
        & _ & _ & Hpass).
  destruct (Hpass eq_refl) as [Hpass' _].
  destruct (passes_validation_checks _ _ _ _ _ _ Hpass')
    as (_ & _ & _ & Hp & Hs & Hsp & _).
  apply policy_value_check_Accepted in Hp
    as [[=] | (p' & [= <-] & Hmin & _)].
  apply salvage_value_check_Accepted in Hs
    as [[=] | [[=] | (s' & [= <-] & Hs0)]].
  unfold salvage_exceeds_policy, float_gt in Hsp. cbn [float] in Hsp.
  apply float_lt_Fin_false in Hsp.
  destruct (calculate_total_loss_threshold _ _ _ _ _ _ _ _ _ _ Hr)
    as (p' & s' & q' & [= <-] & [= <-] & [= <-] & _ & Ht & Hd).
  destruct (get_threshold_fraction pt) as (f & Hf & Hpos & Hlt).
  rewrite Hf in Ht.
  assert (∃ t, threshold r = Fin t ∧ (0 <= t)%Qc ∧ (t < p)%Qc)
    as (t & Hth & Ht0 & Htp).
  { case_bool_decide; cbn [float_sub float_mul] in Ht; eexists;
      (split; [exact Ht |]); split; qc_to_q; simpl in *; nra. }
  exists t. split_and!; [done.. | |].
  - intros ->. rewrite Hd, Hth. unfold float_gt.
    apply float_lt_Fin_false. done.
  - intros Hpq. rewrite Hd, Hth. unfold float_gt. apply float_lt_Fin.
    eapply Qclt_le_trans; [exact Htp | exact Hpq].
Qed.

Lemma validated_threshold_below_policy_value_witness :
  ∃ r v t,
    calculate_total_loss 0 "1HGBH41JXMN109186" "commercial"
      (Num (of_Z 20000)) (Num (of_Z 5000)) (Num (of_Z 20000)) "client" false
    = Ok (Some r, v)
    ∧ threshold r = Fin t ∧ (t < Q2Qc (20000 # 1))%Qc
    ∧ is_total_loss r = true.
Proof.
  assert (∃ r v,
            calculate_total_loss 0 "1HGBH41JXMN109186" "commercial"
              (Num (of_Z 20000)) (Num (of_Z 5000)) (Num (of_Z 20000))
              "client" false = Ok (Some r, v)) as (r & v & Hr).
  { eexists _, _. vm_compute. reflexivity. }
  destruct (validated_threshold_below_policy_value 0 "1HGBH41JXMN109186"
              "commercial" (Q2Qc (20000 # 1)) (Q2Qc (5000 # 1))
              (Q2Qc (20000 # 1)) "client" r v Hr)
    as (t & Ht & _ & Htp & _ & Htotal).
  exists r, v, t. split_and!; [exact Hr | exact Ht | exact Htp |].
  apply Htotal. vm_compute. discriminate.
Defined.

(** ** Rounding *)

Lemma round_half_even_near (q : Q) :
  (2 * Z.abs (Qnum q - round_half_even q * Zpos (Qden q)) <= Zpos (Qden q))%Z.
Proof.
  unfold round_half_even. destruct q as [n d]. cbn [Qnum Qden].
  pose proof (Z.div_mod n (Zpos d) ltac:(lia)) as Hdiv.
  pose proof (Z.mod_pos_bound n (Zpos d) ltac:(lia)) as Hmod.
  destruct (Z.compare_spec (2 * (n mod Zpos d)) (Zpos d));
    [destruct (Z.even _) |..]; nia.
Qed.

Lemma round_half_even_Q (q : Q) :
  (inject_Z (round_half_even q) - (1 # 2) <= q)%Q
  ∧ (q <= inject_Z (round_half_even q) + (1 # 2))%Q.
Proof.
  pose proof (round_half_even_near q) as H.
  destruct q as [n d]. cbn [Qnum Qden] in H.
  set (N := round_half_even (n # d)) in *. clearbody N.
  unfold Qle, Qminus, Qplus, Qopp, inject_Z. cbn [Qnum Qden].
  rewrite ?Pos2Z.inj_mul. split; nia.
Qed.

Lemma round2_nearest_cent x : nearest_cent x (round2 x).
Proof.
  destruct x as [a | | |]; try done. unfold nearest_cent.
  exists (round_half_even (this a * (100 # 1))). split; [done |].
  destruct (round_half_even_Q (this a * (100 # 1))) as [Hlo Hhi].
  set (N := round_half_even _) in *. clearbody N.
  assert (N # 100 == inject_Z N * (1 # 100))%Q as HN.
  { unfold Qeq, inject_Z. simpl. lia. }
  qc_to_q. rewrite !HN. clear HN.
  generalize dependent (inject_Z N). intros y Hlo Hhi.
  split; lra.
Qed.

Lemma round_half_even_cents (n : Z) :
  round_half_even (Qred (n # 100) * (100 # 1)) = n.
Proof.
  pose proof (Qred_correct (n # 100)) as Hred.
  destruct (Qred (n # 100)) as [n' d']. unfold Qeq in Hred.
  cbn [Qnum Qden] in Hred.
  unfold round_half_even, Qmult. cbn [Qnum Qden].
  rewrite Pos.mul_1_r.
  assert (n' * 100 = n * Zpos d')%Z as -> by lia.
  rewrite Z.div_mul, Z.mod_mul by lia. simpl.
  reflexivity.
Qed.

Lemma round2_idempotent x : round2 (round2 x) = round2 x.
Proof.
  destruct x as [a | | |]; try done. unfold round2.
  cbn [this Q2Qc]. by rewrite round_half_even_cents.
Qed.

(** X15. What [to_dict] writes.  The label is TOTAL LOSS exactly for a total
    loss and REPAIRABLE otherwise; each of the six amounts is the result's
    amount rounded to a whole number of cents at most half a cent away
    (infinities and NaN unchanged); and rounding a written amount again
    changes nothing. *)
Theorem to_dict_rounds_to_the_nearest_cent (r : ValuationResult) :
  (d_decision (to_dict r) = "TOTAL LOSS" ↔ is_total_loss r = true)
  ∧ (d_decision (to_dict r) = "REPAIRABLE" ↔ is_total_loss r = false)
  ∧ nearest_cent (policy_value r) (d_policy_value (to_dict r))
  ∧ nearest_cent (salvage_value r) (d_salvage_value (to_dict r))
  ∧ nearest_cent (repair_quote r) (d_repair_quote (to_dict r))
  ∧ nearest_cent (threshold r) (d_threshold (to_dict r))
  ∧ nearest_cent (threshold_percentage r) (d_threshold_percentage (to_dict r))
  ∧ nearest_cent (decision_margin r) (d_decision_margin (to_dict r))
  ∧ Forall (λ amount, round2 amount = amount)
      [ d_policy_value (to_dict r); d_salvage_value (to_dict r);
        d_repair_quote (to_dict r); d_threshold (to_dict r);
        d_threshold_percentage (to_dict r); d_decision_margin (to_dict r) ].
Proof.
  split_and!; try apply round2_nearest_cent.
  - cbn [to_dict d_decision]. by destruct (is_total_loss r).
  - cbn [to_dict d_decision]. by destruct (is_total_loss r).
  - cbn [to_dict d_policy_value d_salvage_value d_repair_quote d_threshold
         d_threshold_percentage d_decision_margin].
    repeat constructor; apply round2_idempotent.
Qed.

(** ** Configuration *)

Lemma THRESHOLDS_keys policy_type x :
  config.THRESHOLDS !! policy_type = Some x →
  policy_type ∈ ["client"; "third_party"; "commercial"; "luxury"].
Proof.
  unfold config.THRESHOLDS.
  rewrite !lookup_insert_Some, lookup_empty.
  intros [[<- _] | [_ [[<- _] | [_ [[<- _] | [_ [[<- _] | [_ ?]]]]]]]];
    [set_solver.. | done].
Qed.

Lemma of_ratio_neq n d n' d' :
  Qred (n # d) ≠ Qred (n' # d') → of_ratio n d ≠ of_ratio n' d'.
Proof.
  intros Hne Heq. apply Hne.
  apply (f_equal (λ x, match x with Fin q => this q | _ => 0%Q end)) in Heq.
  exact Heq.
Qed.

(** X16. Validation compares the policy type in lower case, the threshold
    table is read with the policy type as given.  So a policy type that
    validation accepts gets the commercial fraction 0.65 only when it is
    spelled exactly commercial, and 0.7 in every other case, another
    spelling of commercial included; the fraction 0.75 stored for luxury is
    never used for an accepted policy type. *)
Theorem accepted_policy_type_fraction (pt : string) :
  validate_policy_type pt = true →
  config.get_threshold pt
  = (if bool_decide (pt = "commercial") then of_ratio 65 100
     else of_ratio 7 10)
  ∧ config.get_threshold pt ≠ of_ratio 75 100.
Proof.
  intros Hpt.
  assert (config.get_threshold pt
          = if bool_decide (pt = "commercial") then of_ratio 65 100
            else of_ratio 7 10) as Hf.
  { unfold config.get_threshold.
    destruct (config.THRESHOLDS !! pt) as [x |] eqn:Hx; simpl.
    - pose proof (THRESHOLDS_keys _ _ Hx) as Hkey.
      repeat (apply elem_of_cons in Hkey as [-> | Hkey]);
        [done | done | | done | by apply elem_of_nil in Hkey].
      rewrite bool_decide_eq_true_2 by done.
      by injection Hx as <-.
    - rewrite bool_decide_eq_false_2; [done |].
      by intros ->. }
  split; [done |]. rewrite Hf.
  case_bool_decide; by apply of_ratio_neq.
Qed.

Lemma accepted_policy_type_fraction_witness :
  validate_policy_type "COMMERCIAL" = true
  ∧ config.get_threshold "COMMERCIAL" = of_ratio 7 10.
Proof.
  split; [reflexivity |].
  apply (proj1 (accepted_policy_type_fraction "COMMERCIAL" eq_refl)).
Defined.

(** X17. [validate_config] reports the configuration valid exactly when the
    five credentials it reads are set to non-empty strings; it is valid
    exactly when it lists no error, lists at most three, one per service and
    in the order Auto Grap, email, Twilio, and never looks at the Twilio
    sender number. *)
Theorem validate_config_requires_five_credentials (env : config.environment) :
  ((config.validate_config env).1 = true
   ↔ config.not_set (config.AUTO_GRAP_KEY env) = false
     ∧ config.not_set (config.EMAIL_USER env) = false
     ∧ config.not_set (config.EMAIL_PASS env) = false
     ∧ config.not_set (config.TWILIO_SID env) = false
     ∧ config.not_set (config.TWILIO_TOKEN env) = false)
  ∧ ((config.validate_config env).1 = true
     ↔ (config.validate_config env).2 = [])
  ∧ sublist (config.validate_config env).2
      [ "AUTO_GRAP_KEY not set in environment";
        "Email credentials not set in environment";
        "Twilio credentials not set in environment" ]
  ∧ (∀ sender,
       config.validate_config
         {| config.AUTO_GRAP_KEY := config.AUTO_GRAP_KEY env;
            config.EMAIL_USER := config.EMAIL_USER env;
            config.EMAIL_PASS := config.EMAIL_PASS env;
            config.TWILIO_SID := config.TWILIO_SID env;
            config.TWILIO_TOKEN := config.TWILIO_TOKEN env;
            config.TWILIO_FROM := sender |}
       = config.validate_config env).
Proof.
  unfold config.validate_config. cbn [config.AUTO_GRAP_KEY config.EMAIL_USER
    config.EMAIL_PASS config.TWILIO_SID config.TWILIO_TOKEN config.TWILIO_FROM].
  destruct (config.not_set (config.AUTO_GRAP_KEY env)),
    (config.not_set (config.EMAIL_USER env)),
    (config.not_set (config.EMAIL_PASS env)),
    (config.not_set (config.TWILIO_SID env)),
    (config.not_set (config.TWILIO_TOKEN env)); simpl;
    (split_and!; [ split; [done | by intros (? & ? & ? & ? & ?)]
                 | done
                 | repeat first [ apply sublist_nil_l
                                | apply sublist_skip | apply sublist_cons ]
                 | done ]).
Qed.

(** ** Batches *)

Lemma calculate_total_loss_Ok_valid now vin pt pv sv rq loss skip o v :
  calculate_total_loss now vin pt pv sv rq loss skip = Ok (o, v) →
  (is_valid v = true ∧ is_Some o) ∨ (is_valid v = false ∧ o = None).
Proof.
  unfold calculate_total_loss.
  assert (∀ v',
    (policy_value ← float pv;
     salvage_value ← float sv;
     repair_quote ← float rq;
     let threshold_pct := config.get_threshold pt in
     '(threshold, calculation_method) ←
       (if bool_decide (loss = "client") then
          Ok (float_mul policy_value threshold_pct,
              PercentOfPolicyValue (float_mul threshold_pct (of_Z 100)))
        else if bool_decide (loss = "third_party") then
          let net_value := float_sub policy_value salvage_value in
          Ok (float_mul net_value threshold_pct,
              PercentOfNetValue (float_mul threshold_pct (of_Z 100)))
        else Raise (ValueError ("Invalid loss type: " +:+ loss)));
     let is_total_loss := float_gt repair_quote threshold in
     result ←
       ValuationResult_init now is_total_loss threshold policy_value
         salvage_value repair_quote loss pt vin calculation_method;
     Ok (Some result, v')) = Ok (o, v) →
    v = v' ∧ is_Some o) as Hrest.
  { intros v' H.
    apply bind_Ok in H as (p & _ & H). apply bind_Ok in H as (s & _ & H).
    apply bind_Ok in H as (q & _ & H). cbn zeta in H.
    apply bind_Ok in H as ([th m] & _ & H).
    apply bind_Ok in H as (r & _ & H). by injection H as <- <-. }
  destruct skip; cbn [negb andb].
  - cbn [mbind result_bind]. intros [-> Ho]%Hrest. by left.
  - destruct (validate_total_loss_input vin pt pv sv rq loss None None)
      as [v' | e]; cbn [mbind result_bind]; [| done].
    destruct (is_valid v') eqn:Hvalid; cbn [negb].
    + intros [-> Ho]%Hrest. by left.
    + intros [= <- <-]. by right.
Qed.




Lemma count_if_cons {A} (test : A → bool) x l :
  count_if test (x :: l)
  = ((if test x then 1 else 0) + count_if test l)%Z.
Proof.
  unfold count_if. destruct (test x) eqn:Hx.
  - rewrite filter_cons_True by done. simpl length. lia.
  - rewrite filter_cons_False by congruence. lia.
Qed.

Lemma count_if_ext {A} (test test' : A → bool) l :
  (∀ x, x ∈ l → test x = test' x) →
  count_if test l = count_if test' l.
Proof.
  induction l as [| x l IH]; intros Hext; [done |].
  rewrite !count_if_cons, IH, (Hext x).
  - done.
  - left.
  - intros y Hy. apply Hext. by right.
Qed.

Lemma count_if_bounds {A} (test : A → bool) l :
  (0 <= count_if test l <= Z.of_nat (length l))%Z.
Proof.
  induction l as [| x l IH]; [done |].
  rewrite count_if_cons. simpl length. destruct (test x); lia.
Qed.

Lemma count_if_negb {A} (test : A → bool) l :
  (count_if (λ x, negb (test x)) l
   = Z.of_nat (length l) - count_if test l)%Z.
Proof.
  induction l as [| x l IH]; [done |].
  rewrite !count_if_cons, IH. simpl length. destruct (test x); simpl; lia.
Qed.

Lemma count_if_le {A} (test test' : A → bool) l :
  (∀ x, test x = true → test' x = true) →
  (count_if test l <= count_if test' l)%Z.
Proof.
  intros Himp. induction l as [| x l IH]; [done |].
  rewrite !count_if_cons. pose proof (Himp x) as Hx.
  destruct (test x), (test' x);
    first [lia | by specialize (Hx eq_refl)].
Qed.

(** Counting entries of a batch is counting the outcomes of its cases. *)
Lemma calculate_batch_from_count clock
    (on_entry : batch_entry → bool)
    (on_outcome : result (option ValuationResult * ValidationResult) → bool) :
  (∀ c o, on_entry (make_entry c o) = on_outcome (Ok o)) →
  ∀ cases k results,
    calculate_batch_from clock k cases = Ok results →
    count_if on_entry results
    = count_if (λ ic, on_outcome (evaluate (clock ic.1) ic.2))
        (imap (λ i c, (k + i, c)) cases).
Proof.
  intros Hentry cases. induction cases as [| c cases IH]; intros k results.
  - by intros [= <-].
  - cbn [calculate_batch_from].
    intros (o & Ho & (rest & Hrest & [= <-])%bind_Ok)%bind_Ok.
    rewrite imap_cons, !count_if_cons. cbn [fst snd].
    rewrite Nat.add_0_r, Ho, Hentry. f_equal.
    rewrite (IH _ _ Hrest). f_equal.
    apply imap_ext. intros i x _. simpl. f_equal. lia.
Qed.

(** X19. The figures [run_batch] prints.  When the batch returns, the
    successful cases are those whose evaluation gives a decision, the failed
    ones those whose validation reports an error, and the total losses the
    decisions that are total losses; successful and failed add up to the
    number of cases, total losses and repairable to the successful ones, and
    no figure is negative. *)
Theorem run_batch_summary_counts
    (clock : nat → Z) (cases : list case)
    (results : list batch_entry) (figures : main.batch_summary) :
  main.run_batch clock cases = Ok (results, figures) →
  main.total_cases figures = Z.of_nat (length cases)
  ∧ main.successful figures = count_if (decided clock) (indexed cases)
  ∧ main.failed figures
    = count_if (failed_validation clock) (indexed cases)
  ∧ main.total_losses figures
    = count_if (judged_total_loss clock) (indexed cases)
  ∧ (main.successful figures + main.failed figures
     = main.total_cases figures)%Z
  ∧ (main.total_losses figures + main.repairable figures
     = main.successful figures)%Z
  ∧ (0 <= main.failed figures)%Z
  ∧ (0 <= main.total_losses figures)%Z
  ∧ (0 <= main.repairable figures)%Z.
Proof.
  unfold main.run_batch, calculate_batch.
  intros (results' & Hr & [= <- <-])%bind_Ok.
  cbn [main.total_cases main.successful main.failed main.total_losses
       main.repairable].
  assert (length results' = length cases) as Hlen.
  { by apply calculate_batch_from_Ok in Hr as [? _]. }
  assert (count_if main.has_result results'
          = count_if (decided clock) (indexed cases)) as Hs.
  { rewrite (calculate_batch_from_count clock main.has_result
               (λ o, match o with Ok (Some _, _) => true | _ => false end)
               ltac:(by intros c [[r |] v]) cases 0 results' Hr).
    done. }
  assert (count_if main.is_total_loss_entry results'
          = count_if (judged_total_loss clock) (indexed cases)) as Ht.
  { rewrite (calculate_batch_from_count clock main.is_total_loss_entry
               (λ o, match o with
                     | Ok (Some r, _) => is_total_loss r
                     | _ => false
                     end)
               ltac:(intros c [[r |] v]; [| done];
                     unfold main.is_total_loss_entry; simpl;
                     by destruct (is_total_loss r)) cases 0 results' Hr).
    done. }
  assert (count_if (failed_validation clock) (indexed cases)
          = (Z.of_nat (length results')
             - count_if main.has_result results')%Z) as Hf.
  { rewrite <- count_if_negb.
    rewrite (calculate_batch_from_count clock
               (λ e, negb (main.has_result e))
               (λ o, match o with Ok (None, _) => true | _ => false end)
               ltac:(by intros c [[r |] v]) cases 0 results' Hr).
    apply count_if_ext. intros [i c] _. unfold failed_validation.
    cbn [fst snd]. destruct (evaluate (clock i) c) as [[o v] | e] eqn:He;
      [| done].
    unfold evaluate in He.
    apply calculate_total_loss_Ok_valid in He
      as [[-> [r ->]] | [-> ->]]; done. }
  pose proof (count_if_bounds (judged_total_loss clock) (indexed cases)).
  pose proof (count_if_bounds (failed_validation clock) (indexed cases)).
  rewrite <- Hf, Hs, Ht.
  assert (count_if (judged_total_loss clock) (indexed cases)
          <= count_if (decided clock) (indexed cases))%Z.
  { apply count_if_le. intros [i c]. unfold judged_total_loss, decided.
    by destruct (evaluate _ _) as [[[r |] v] | e]. }
  split_and!; try done; lia.
Qed.

Lemma run_batch_summary_counts_witness :
  ∃ results figures,
    main.run_batch (λ _, 0%Z) [scenario_1; scenario_6; scenario_2]
    = Ok (results, figures)
    ∧ main.successful figures = 2%Z ∧ main.failed figures = 1%Z
    ∧ main.total_losses figures = 2%Z.
Proof.
  assert (∃ results figures,
            main.run_batch (λ _, 0%Z) [scenario_1; scenario_6; scenario_2]
            = Ok (results, figures)) as (results & figures & Hr).
  { eexists _, _. vm_compute. reflexivity. }
  destruct (run_batch_summary_counts _ _ _ _ Hr)
    as (_ & Hs & Hf & Ht & _).
  exists results, figures.
  split; [exact Hr |]. rewrite Hs, Hf, Ht.
  vm_compute. split_and!; reflexivity.
Defined.

(** ** Decision identifiers *)

Lemma chars_zeros k : chars (zeros k) = replicate k "0"%char.
Proof. induction k as [| k IH]; [done |]. simpl. by rewrite <- IH. Qed.

Lemma chars_string_of_uint d c :
  c ∈ chars (DecimalString.NilEmpty.string_of_uint d) → isdigit c = true.
Proof.
  induction d as [| d IH | d IH | d IH | d IH | d IH | d IH | d IH | d IH
                  | d IH | d IH]; simpl;
    [by intros ?%elem_of_nil | ..];
    (intros [-> | ?]%elem_of_cons; [done | by apply IH]).
Qed.

Lemma format_04d_digits n c : c ∈ chars (format_04d n) → isdigit c = true.
Proof.
  unfold format_04d. rewrite chars_append, chars_zeros.
  intros [[-> _]%elem_of_replicate | H]%elem_of_app; [done |].
  by apply chars_string_of_uint in H.
Qed.

Lemma uint_of_string_zeros k s :
  DecimalString.NilEmpty.uint_of_string (zeros k +:+ s)
  = Nat.iter k Decimal.D0 <$> DecimalString.NilEmpty.uint_of_string s.
Proof.
  induction k as [| k IH].
  - rewrite append_empty_l. simpl.
    by destruct (DecimalString.NilEmpty.uint_of_string s).
  - cbn [zeros]. rewrite append_String.
    cbn [DecimalString.NilEmpty.uint_of_string]. rewrite IH.
    by destruct (DecimalString.NilEmpty.uint_of_string s).
Qed.

Lemma of_uint_zeros k d :
  Nat.of_uint (Nat.iter k Decimal.D0 d) = Nat.of_uint d.
Proof. induction k as [| k IH]; [done |]. simpl. exact IH. Qed.

(** Reading the digits back gives the number. *)
Lemma format_04d_value n :
  Nat.of_uint <$> DecimalString.NilEmpty.uint_of_string (format_04d n)
  = Some n.
Proof.
  unfold format_04d. rewrite uint_of_string_zeros, DecimalString.NilEmpty.usu.
  simpl. by rewrite of_uint_zeros, DecimalNat.Unsigned.of_to.
Qed.

Lemma format_04d_inj n m : format_04d n = format_04d m → n = m.
Proof.
  intros H. pose proof (format_04d_value n) as Hn.
  rewrite H, format_04d_value in Hn. by injection Hn.
Qed.

Lemma split_at_first {A} (c : A) l1 l2 x y :
  c ∉ l1 → c ∉ l2 → l1 ++ c :: x = l2 ++ c :: y → l1 = l2.
Proof.
  revert l2. induction l1 as [| a l1 IH]; intros [| b l2] H1 H2 Heq.
  - done.
  - injection Heq as <- _. by apply not_elem_of_cons in H2 as [? _].
  - injection Heq as -> _. by apply not_elem_of_cons in H1 as [? _].
  - injection Heq as -> Heq.
    apply not_elem_of_cons in H1 as [_ H1].
    apply not_elem_of_cons in H2 as [_ H2].
    f_equal. by apply IH.
Qed.

(** Two identifiers with different numbers differ, whatever the clock
    readings in them. *)
Lemma decision_id_of_number stamp1 stamp2 n m :
  decision_id_of stamp1 n = decision_id_of stamp2 m → n = m.
Proof.
  unfold decision_id_of. intros H.
  apply (f_equal chars) in H. rewrite !chars_append in H.
  apply app_inv_head in H. apply (f_equal (@rev ascii)) in H.
  rewrite !rev_app_distr in H. simpl in H.
  rewrite <- !app_assoc in H. simpl in H.
  assert (∀ k, "-"%char ∉ rev (chars (format_04d k))) as Hdash.
  { intros k Hin. apply list_elem_of_In, in_rev, list_elem_of_In in Hin.
    by apply format_04d_digits in Hin. }
  apply split_at_first in H; [| apply Hdash..].
  apply format_04d_inj, chars_inj.
  by rewrite <- (rev_involutive (chars _)), H, rev_involutive.
Qed.

(** ** The decision store *)

Lemma first_with_id_numbered l k i r :
  (∀ j r', l !! j = Some r' →
           ∃ stamp, data_storage.id r' = decision_id_of stamp (k + j + 1)) →
  l !! i = Some r →
  data_storage.first_with_id (data_storage.id r) l = Some r.
Proof.
  revert k i. induction l as [| r0 l IH]; intros k i Hnum Hi; [done |].
  cbn [data_storage.first_with_id]. destruct i as [| i].
  - injection Hi as ->. by rewrite bool_decide_eq_true_2.
  - simpl in Hi. rewrite bool_decide_eq_false_2.
    + apply (IH (S k) i); [| done]. intros j r' Hj.
      destruct (Hnum (S j) r' Hj) as [stamp Hid]. exists stamp.
      rewrite Hid. f_equal. lia.
    + intros Heq. destruct (Hnum 0 r0 eq_refl) as [stamp0 H0].
      destruct (Hnum (S i) r Hi) as [stamp Hr].
      rewrite H0, Hr in Heq. apply decision_id_of_number in Heq. lia.
Qed.

Lemma read_stored_decisions now f :
  data_storage.decisions (data_storage._read_data now f).1
  = stored_decisions f.
Proof. by destruct f. Qed.

Lemma stored_decisions_save now stamp now_stored decision_data f :
  stored_decisions
    (data_storage.save_decision now stamp now_stored decision_data f).2
  = stored_decisions f ++
    [ {| data_storage.id :=
           decision_id_of stamp (length (stored_decisions f) + 1);
         data_storage.stored_at := now_stored;
         data_storage.data := decision_data |} ].
Proof. by destruct f. Qed.

Lemma save_decision_id now stamp now_stored decision_data f :
  (data_storage.save_decision now stamp now_stored decision_data f).1
  = decision_id_of stamp (length (stored_decisions f) + 1).
Proof. by destruct f. Qed.

Lemma get_decision_first now decision_id f :
  (data_storage.get_decision now decision_id f).1
  = data_storage.first_with_id decision_id (stored_decisions f).
Proof. by destruct f. Qed.

Lemma well_numbered_save now stamp now_stored decision_data f :
  well_numbered f →
  well_numbered
    (data_storage.save_decision now stamp now_stored decision_data f).2.
Proof.
  intros Hf i r. rewrite stored_decisions_save.
  intros [Hi | [Hlen Hi]]%lookup_app_Some.
  - by apply Hf.
  - apply list_lookup_singleton_Some in Hi as [Hi <-].
    exists stamp. cbn [data_storage.id]. f_equal. lia.
Qed.

(** X20. Saved decisions are found again.  In a store whose decisions carry
    the identifiers [save_decision] gave them, saving one more keeps that
    state, adds exactly one record at the end, and [get_decision] with the
    returned identifier gives back the record with the data that was saved,
    while every decision stored before is still found under its own
    identifier: the running number keeps identifiers apart even when two
    saves read the same second on the clock. *)
Theorem saved_decision_is_found_by_its_id
    (now stamp now_stored now' : string) (decision_data : decision_dict)
    (f : data_storage.file) :
  well_numbered f →
  let saved :=
    data_storage.save_decision now stamp now_stored decision_data f in
  well_numbered saved.2
  ∧ length (stored_decisions saved.2) = length (stored_decisions f) + 1
  ∧ data_storage.get_decision now' saved.1 saved.2
    = (Some {| data_storage.id := saved.1;
               data_storage.stored_at := now_stored;
               data_storage.data := decision_data |}, saved.2)
  ∧ ∀ r, r ∈ stored_decisions f →
         data_storage.get_decision now' (data_storage.id r) saved.2
         = (Some r, saved.2).
Proof.
  intros Hf saved.
  pose proof (well_numbered_save now stamp now_stored decision_data f Hf)
    as Hsaved. fold saved in Hsaved.
  assert (∀ decision_id,
            data_storage.get_decision now' decision_id saved.2
            = (data_storage.first_with_id decision_id
                 (stored_decisions saved.2), saved.2)) as Hget.
  { intros decision_id. subst saved. by destruct f. }
  assert (stored_decisions saved.2
          = stored_decisions f ++
            [ {| data_storage.id := saved.1;
                 data_storage.stored_at := now_stored;
                 data_storage.data := decision_data |} ]) as Hstored.
  { subst saved. by rewrite stored_decisions_save, save_decision_id. }
  split_and!.
  - done.
  - rewrite Hstored, length_app. simpl. lia.
  - rewrite Hget. f_equal.
    set (r := {| data_storage.id := saved.1;
                 data_storage.stored_at := now_stored;
                 data_storage.data := decision_data |}) in *.
    change saved.1 with (data_storage.id r).
    apply (first_with_id_numbered _ 0 (length (stored_decisions f))).
    + intros j r' Hj. by apply Hsaved.
    + rewrite Hstored. by apply list_lookup_middle.
  - intros r [i Hi]%list_elem_of_lookup. rewrite Hget. f_equal.
    apply (first_with_id_numbered _ 0 i).
    + intros j r' Hj. by apply Hsaved.
    + rewrite Hstored. by apply lookup_app_l_Some.
Qed.

Lemma saved_decision_is_found_by_its_id_witness :
  (data_storage.save_decision "2024-05-01T10:00:00" "20240501100000"
     "2024-05-01T10:00:00.000200"
     (sample_decision "2HGBH41JXMN109187" "REPAIRABLE" "third_party" 25000
        9000) sample_store).1
  = "DEC-20240501100000-0002"
  ∧ length
      (stored_decisions
         (data_storage.save_decision "2024-05-01T10:00:00" "20240501100000"
            "2024-05-01T10:00:00.000200"
            (sample_decision "2HGBH41JXMN109187" "REPAIRABLE" "third_party"
               25000 9000) sample_store).2) = 2.
Proof.
  split; [reflexivity |].
  destruct (saved_decision_is_found_by_its_id "2024-05-01T10:00:00"
              "20240501100000" "2024-05-01T10:00:00.000200"
              "2024-05-01T10:00:01"
              (sample_decision "2HGBH41JXMN109187" "REPAIRABLE" "third_party"
                 25000 9000) sample_store)
    as (_ & Hlen & _).
  - apply well_numbered_save. by intros [| i] r.
  - exact Hlen.
Defined.

(** ** Statistics *)






Lemma of_Z_nonzero z : z ≠ 0%Z → Q2Qc (z # 1) ≠ 0%Qc.
Proof.
  intros Hz Heq. apply Qc_eq_Q in Heq. cbn [this Q2Qc] in Heq.
  rewrite Qred_correct in Heq. unfold Qeq in Heq. simpl in Heq. lia.
Qed.

Lemma float_div_of_Z x z :
  z ≠ 0%Z → ∃ y, float_div x (of_Z z) = Ok y.
Proof.
  intros Hz. unfold float_div, of_Z.
  rewrite bool_decide_eq_false_2 by by apply of_Z_nonzero. by eexists.
Qed.

Lemma average_Ok values : ∃ s, data_storage.average values = Ok s.
Proof.
  destruct values as [| x values]; [by eexists |].
  unfold data_storage.average.
  destruct (float_div_of_Z (sum_of (x :: values))
              (Z.of_nat (length (x :: values)))) as [y ->]; [done |].
  by eexists.
Qed.

Lemma share_of_decisions (a n : Z) :
  (0 <= a <= n)%Z → (0 < n)%Z →
  ∃ pct : Qc,
    (y ← float_div (of_Z a) (of_Z n); Ok (float_mul y (of_Z 100)))
    = Ok (Fin pct)
    ∧ (0 <= pct)%Qc ∧ (pct <= Q2Qc (100 # 1))%Qc.
Proof.
  intros Ha Hn. unfold float_div, of_Z.
  rewrite bool_decide_eq_false_2 by (apply of_Z_nonzero; lia).
  cbn [mbind result_bind float_mul]. eexists. split; [reflexivity |].
  assert (0 < n # 1)%Q as Hpos by (unfold Qlt; simpl; lia).
  assert (0 <= Q2Qc (a # 1) / Q2Qc (n # 1))%Qc as Hlo.
  { unfold Qcle, Qcdiv, Qcmult, Qcinv. cbn [this Q2Qc].
    rewrite !Qred_correct. apply Qle_shift_div_l; [done |].
    unfold Qle. simpl. lia. }
  assert (Q2Qc (a # 1) / Q2Qc (n # 1) <= 1)%Qc as Hhi.
  { unfold Qcle, Qcdiv, Qcmult, Qcinv. cbn [this Q2Qc].
    rewrite !Qred_correct. apply Qle_shift_div_r; [done |].
    unfold Qle. simpl. lia. }
  generalize dependent (Q2Qc (a # 1) / Q2Qc (n # 1))%Qc.
  intros y Hlo Hhi. split; qc_lra.
Qed.

Lemma read_data_file now f :
  (data_storage._read_data now f).2
  = match f with
    | data_storage.Stored _ => f
    | _ => data_storage._initialize_storage now
    end.
Proof. by destruct f. Qed.

(** What [get_statistics] puts under its keys, for a store that holds
    decisions. *)
Lemma get_statistics_some now d first rest :
  data_storage.decisions d = first :: rest →
  ∃ (pct : Qc) avg_policy_value avg_repair_quote,
    (0 <= pct)%Qc ∧ (pct <= Q2Qc (100 # 1))%Qc
    ∧ data_storage.get_statistics now (data_storage.Stored d)
      = (Ok (<["total_decisions" :=
                 data_storage.SInt (Z.of_nat (length (first :: rest)))]>
             (<["total_losses" :=
                  data_storage.SInt
                    (count_if
                       (λ r, bool_decide
                               (d_decision (data_storage.data r) = "TOTAL LOSS"))
                       (first :: rest))]>
             (<["repairable" :=
                  data_storage.SInt
                    (count_if
                       (λ r, bool_decide
                               (d_decision (data_storage.data r) = "REPAIRABLE"))
                       (first :: rest))]>
             (<["total_loss_percentage" := data_storage.SFloat (Fin pct)]>
             (<["avg_policy_value" := avg_policy_value]>
             (<["avg_repair_quote" := avg_repair_quote]>
             (<["loss_types" :=
                  data_storage.SCounts
                    (foldl (λ counts r,
                              data_storage.increment
                                (d_loss_type (data_storage.data r)) counts)
                       [] (first :: rest))]>
             (<["first_decision" :=
                  data_storage.SStr (data_storage.stored_at first)]>
             (<["last_decision" :=
                  data_storage.SStr
                    (data_storage.stored_at
                       (List.last (first :: rest) first))]> ∅))))))))),
         data_storage.Stored d).
Proof.
  intros Hd. unfold data_storage.get_statistics.
  cbn [data_storage._read_data]. rewrite Hd.
  set (tl := count_if _ (first :: rest)).
  destruct (share_of_decisions tl (Z.of_nat (length (first :: rest))))
    as (pct & Hpct & Hlo & Hhi).
  { pose proof (count_if_bounds
                  (λ r, bool_decide
                          (d_decision (data_storage.data r) = "TOTAL LOSS"))
                  (first :: rest)). fold tl in H. lia. }
  { simpl. lia. }
  apply bind_Ok in Hpct as (share & Hshare & [= Hpct]).
  rewrite Hshare. cbn [mbind result_bind].
  repeat match goal with
         | |- context [data_storage.average ?l] =>
             let s := fresh "avg" in
             destruct (average_Ok l) as [s ->]
         end.
  cbn [mbind result_bind]. rewrite Hpct.
  eexists pct, _, _. split_and!; [done | done | reflexivity].
Qed.


(** X22. [run_statistics] on a store without decisions does not print its
    report: the dictionary [get_statistics] returns for such a store has no
    key total_loss_percentage, so the second line raises KeyError, whether
    the file was missing, no JSON text, or held an empty list.  As soon as
    one decision is stored the report is printed, with the figures of
    [get_statistics]. *)
Theorem run_statistics_needs_a_decision
    (now : string) (f : data_storage.file) :
  (main.run_statistics now f).2 = (data_storage._read_data now f).2
  ∧ if bool_decide (stored_decisions f = []) then
      (main.run_statistics now f).1 = main.KeyError "total_loss_percentage"
    else
      ∃ report,
        (main.run_statistics now f).1 = main.Printed report
        ∧ main.shown_total_decisions report
          = data_storage.SInt (Z.of_nat (length (stored_decisions f)))
        ∧ ∃ stats,
            (data_storage.get_statistics now f).1 = Ok stats
            ∧ stats !! "total_losses"
              = Some (main.shown_total_losses report)
            ∧ stats !! "total_loss_percentage"
              = Some (main.shown_total_loss_percentage report)
            ∧ stats !! "repairable" = Some (main.shown_repairable report)
            ∧ stats !! "loss_types" = Some (main.shown_loss_types report).
Proof.
  destruct (stored_decisions f) as [| first rest] eqn:Hstored.
  - rewrite bool_decide_eq_true_2 by done.
    destruct f as [| | d]; [done | done |].
    simpl in Hstored. unfold main.run_statistics, data_storage.get_statistics.
    cbn [data_storage.DecisionStorage_init data_storage._read_data].
    rewrite Hstored. done.
  - rewrite bool_decide_eq_false_2 by done.
    destruct f as [| | d]; [done | done |]. simpl in Hstored.
    destruct (get_statistics_some now d first rest Hstored)
      as (pct & avg_p & avg_r & _ & _ & Hstats).
    unfold main.run_statistics.
    cbn [data_storage.DecisionStorage_init]. rewrite Hstats.
    split; [done |].
    unfold main.lookup_stat.
    destruct (main.shown (data_storage.SStr (data_storage.stored_at first)))
      eqn:Hshown.
    + eexists. split.
      { cbn [fst].
        repeat first [ rewrite lookup_insert_eq
                     | rewrite lookup_insert_ne by done ].
        rewrite Hshown.
        repeat first [ rewrite lookup_insert_eq
                     | rewrite lookup_insert_ne by done ].
        reflexivity. }
      split; [done |]. eexists. split; [reflexivity |]. done.
    + eexists. split.
      { cbn [fst].
        repeat first [ rewrite lookup_insert_eq
                     | rewrite lookup_insert_ne by done ].
        rewrite Hshown. reflexivity. }
      split; [done |]. eexists. split; [reflexivity |]. done.
Qed.

(** ** Searching and clearing *)

Lemma where_given_filter {A} (criterion : option A) test l :
  data_storage.where_given criterion test l
  = filter (λ r, asks criterion (λ a, test a r) = true) l.
Proof.
  destruct criterion as [a |]; simpl; [done |].
  symmetry. induction l as [| r l IH]; [done |].
  by rewrite filter_cons_True, IH.
Qed.

Lemma filter_filter_andb {A} (p q : A → bool) (l : list A) :
  filter (λ r, q r = true) (filter (λ r, p r = true) l)
  = filter (λ r, p r && q r = true) l.
Proof.
  induction l as [| r l IH]; [done |].
  destruct (p r) eqn:Hp, (q r) eqn:Hq.
  - rewrite (filter_cons_True (λ r, p r = true)) by done.
    rewrite !filter_cons_True by (by rewrite ?Hp, ?Hq). by rewrite IH.
  - rewrite (filter_cons_True (λ r, p r = true)) by done.
    rewrite !filter_cons_False by (by rewrite ?Hp, ?Hq). done.
  - rewrite !filter_cons_False by (by rewrite ?Hp, ?Hq). done.
  - rewrite !filter_cons_False by (by rewrite ?Hp, ?Hq). done.
Qed.

(** X23. [search_decisions] applies its six filters one after the other;
    together they keep exactly the stored decisions that meet every given
    criterion, in the order they were stored.  A criterion that is absent or
    an empty string keeps everything, so a search without criteria returns
    the whole store, and a readable file is left as it was. *)
Theorem search_decisions_keeps_what_meets_all (now : string) (c : criteria)
    (f : data_storage.file) :
  (search now c f).1 = filter (λ r, meets c r = true) (stored_decisions f)
  ∧ sublist (search now c f).1 (stored_decisions f)
  ∧ (∀ r, r ∈ (search now c f).1 ↔ r ∈ stored_decisions f ∧ meets c r = true)
  ∧ (search now
       {| min_policy_value := None; max_policy_value := None;
          for_loss_type := Some ""; for_decision := None;
          start_date := None; end_date := Some "" |} f).1
    = stored_decisions f
  ∧ (search now c f).2 = (data_storage._read_data now f).2.
Proof.
  assert ((search now c f).1
          = filter (λ r, meets c r = true) (stored_decisions f)) as Hs.
  { unfold search, data_storage.search_decisions.
    rewrite <- (read_stored_decisions now f).
    destruct (data_storage._read_data now f) as [d f']. cbn [fst].
    rewrite !where_given_filter, !filter_filter_andb.
    apply list_filter_iff. intros r. unfold meets.
    by rewrite !andb_assoc. }
  split_and!.
  - done.
  - rewrite Hs. apply sublist_filter.
  - intros r. rewrite Hs, list_elem_of_filter. tauto.
  - unfold search, data_storage.search_decisions.
    rewrite <- (read_stored_decisions now f).
    by destruct (data_storage._read_data now f) as [d f'].
  - unfold search, data_storage.search_decisions.
    by destruct (data_storage._read_data now f) as [d f'].
Qed.

Lemma first_with_id_Some decision_id l r :
  data_storage.first_with_id decision_id l = Some r →
  data_storage.id r = decision_id ∧ r ∈ l.
Proof.
  induction l as [| r0 l IH]; [done |]. cbn [data_storage.first_with_id].
  case_bool_decide as Hid.
  - intros [= <-]. split; [done | left].
  - intros [? ?]%IH. split; [done | by right].
Qed.

Lemma first_with_id_None decision_id l :
  data_storage.first_with_id decision_id l = None ↔
  ∀ r, r ∈ l → data_storage.id r ≠ decision_id.
Proof.
  induction l as [| r0 l IH]; cbn [data_storage.first_with_id].
  - split; [by intros _ r ?%elem_of_nil | done].
  - case_bool_decide as Hid.
    + split; [done |]. intros H. destruct (H r0); [left | done].
    + rewrite IH. split.
      * intros H r [-> | ?]%elem_of_cons; [done | by apply H].
      * intros H r Hr. apply H. by right.
Qed.

(** X24. The two lookups agree with the store and with each other.
    [get_decision] returns a stored decision that carries the identifier
    asked for, and none exactly when no stored decision carries it;
    [get_decisions_by_vin] returns exactly the stored decisions of the
    vehicle, in the order they were stored; so what [get_decision] finds is
    among the decisions of its vehicle.  Both leave a readable file as it
    is, and replace a file that is missing or no JSON text by an empty
    store, in which they find nothing. *)
Theorem lookups_agree_with_the_store (now : string) (f : data_storage.file) :
  (∀ decision_id r,
     (data_storage.get_decision now decision_id f).1 = Some r →
     data_storage.id r = decision_id
     ∧ r ∈ stored_decisions f
     ∧ r ∈ (data_storage.get_decisions_by_vin now
              (d_vin (data_storage.data r)) f).1)
  ∧ (∀ decision_id,
       (data_storage.get_decision now decision_id f).1 = None
       ↔ ∀ r, r ∈ stored_decisions f → data_storage.id r ≠ decision_id)
  ∧ (∀ vin,
       sublist (data_storage.get_decisions_by_vin now vin f).1
         (stored_decisions f)
       ∧ ∀ r, r ∈ (data_storage.get_decisions_by_vin now vin f).1
              ↔ r ∈ stored_decisions f ∧ d_vin (data_storage.data r) = vin)
  ∧ (∀ decision_id vin,
       (data_storage.get_decision now decision_id f).2
       = (data_storage._read_data now f).2
       ∧ (data_storage.get_decisions_by_vin now vin f).2
         = (data_storage._read_data now f).2)
  ∧ match f with
    | data_storage.Stored _ => (data_storage._read_data now f).2 = f
    | _ =>
        (data_storage._read_data now f).2
        = data_storage.Stored (data_storage.empty_document now)
    end.
Proof.
  assert (∀ vin,
            (data_storage.get_decisions_by_vin now vin f).1
            = filter (λ r, d_vin (data_storage.data r) = vin)
                (stored_decisions f)) as Hvin.
  { intros vin. by destruct f. }
  split_and!.
  - intros decision_id r. rewrite get_decision_first.
    intros [Hid Hin]%first_with_id_Some. split_and!; [done.. |].
    rewrite Hvin. by apply list_elem_of_filter.
  - intros decision_id. rewrite get_decision_first.
    apply first_with_id_None.
  - intros vin. rewrite Hvin. split; [apply sublist_filter |].
    intros r. rewrite list_elem_of_filter. tauto.
  - intros decision_id vin. by destruct f.
  - by destruct f.
Qed.

(** X25. [clear_all_decisions] without confirmation raises ValueError and
    leaves the file as it is.  With confirmation the store is empty, no
    identifier is known any more, and numbering starts again: the next save
    gets the number 0001, the number the first decision of the cleared
    store had. *)
Theorem clear_all_decisions_restarts_numbering
    (now now' stamp now_stored : string) (decision_data : decision_dict)
    (f : data_storage.file) :
  data_storage.clear_all_decisions now false f
  = (Raise (ValueError "Must confirm to clear all decisions"), f)
  ∧ (data_storage.clear_all_decisions now true f).1 = Ok ()
  ∧ stored_decisions (data_storage.clear_all_decisions now true f).2 = []
  ∧ (∀ decision_id,
       (data_storage.get_decision now' decision_id
          (data_storage.clear_all_decisions now true f).2).1 = None)
  ∧ (data_storage.save_decision now' stamp now_stored decision_data
       (data_storage.clear_all_decisions now true f).2).1
    = decision_id_of stamp 1
  ∧ (∀ first rest,
       well_numbered f → stored_decisions f = first :: rest →
       ∃ stamp', data_storage.id first = decision_id_of stamp' 1).
Proof.
  split_and!; try done.
  intros first rest Hf Hstored. destruct (Hf 0 first) as [stamp' Hid].
  - by rewrite Hstored.
  - by exists stamp'.
Qed.

(** ** The report and a single assessment *)

Lemma float_abs_not_negative x : float_lt (float_abs x) (of_Z 0) = false.
Proof.
  destruct x as [a | | |]; try done. unfold float_abs.
  case_bool_decide as Ha; unfold of_Z; apply float_lt_Fin_false; qc_lra.
Qed.

(** X26. Every decision the engine returns can be explained:
    [generate_explanation] finds the name of the loss type, so the lookup in
    [config.LOSS_TYPES] never fails on it.  In the report the margin is shown
    without sign and on the side over exactly for a total loss, the word
    exceeds and the verdict ECONOMIC TOTAL LOSS go with the label TOTAL
    LOSS, the threshold is said to be a share of the policy value exactly
    for a client loss, and the share is printed as 70 percent whatever the
    policy type, also where the calculation method shows another one. *)
Theorem every_decision_is_explained
    (now : Z) (vin pt : string) (pv sv rq : any) (loss : string)
    (skip : bool) (r : ValuationResult) (v : ValidationResult) :
  calculate_total_loss now vin pt pv sv rq loss skip = Ok (Some r, v) →
  ∃ report,
    generate_explanation r = Some report
    ∧ (x_margin_side report = "over" ↔ is_total_loss r = true)
    ∧ (x_decision report = "TOTAL LOSS" ↔ is_total_loss r = true)
    ∧ (x_rationale_verb report = "exceeds" ↔ is_total_loss r = true)
    ∧ (x_rationale_verdict report = "ECONOMIC TOTAL LOSS"
       ↔ is_total_loss r = true)
    ∧ (x_decision_icon report = Red ↔ is_total_loss r = true)
    ∧ float_lt (x_decision_margin report) (of_Z 0) = false
    ∧ (x_rationale_base report = "policy value" ↔ loss = "client")
    ∧ x_rationale_share report = "70%"
    ∧ x_threshold_heading report = "Threshold (70%):"
    ∧ (∃ share,
         (x_calculation_method report = PercentOfPolicyValue share
          ∨ x_calculation_method report = PercentOfNetValue share)
         ∧ share = float_mul (config.get_threshold pt) (of_Z 100)).
Proof.
  intros Hr.
  destruct (calculate_total_loss_Some _ _ _ _ _ _ _ _ _ _ Hr)
    as (p & s & q & _ & _ & _ & Hth & Hd & _ & _ & _ & Hloss & Hm & _).
  assert (loss = "client" ∨ loss = "third_party") as Hexact.
  { destruct Hth as [[-> _] | [-> _]]; [by left | by right]. }
  assert (∃ share,
            (calculation_method r = PercentOfPolicyValue share
             ∨ calculation_method r = PercentOfNetValue share)
            ∧ share = float_mul (config.get_threshold pt) (of_Z 100))
    as Hmethod.
  { unfold calculate_total_loss in Hr.
    apply bind_Ok in Hr as (v' & _ & Hr).
    destruct (negb skip && negb (is_valid v')); [done |].
    apply bind_Ok in Hr as (p' & _ & Hr).
    apply bind_Ok in Hr as (s' & _ & Hr).
    apply bind_Ok in Hr as (q' & _ & Hr). cbn zeta in Hr.
    apply bind_Ok in Hr as ([th m] & Hm' & Hr).
    apply bind_Ok in Hr as (r' & Hinit & [= <- _]).
    unfold ValuationResult_init in Hinit.
    apply bind_Ok in Hinit as (pct & _ & [= <-]). cbn [calculation_method].
    eexists. split; [| reflexivity].
    repeat case_bool_decide; injection Hm' as <- <- || discriminate Hm';
      [by left | by right]. }
  assert (is_total_loss r = float_gt (decision_margin r) (of_Z 0)) as Hsign.
  { rewrite Hd, Hm. apply float_gt_sub. }
  unfold generate_explanation. rewrite Hloss.
  assert (∃ name, getitem config.LOSS_TYPES loss = Some name) as [name ->].
  { destruct Hexact as [-> | ->]; by eexists. }
  cbn [mbind option_bind]. eexists. split; [reflexivity |].
  cbn [x_margin_side x_decision x_rationale_verb x_rationale_verdict
       x_decision_icon x_decision_margin x_rationale_base x_rationale_share
       x_threshold_heading x_calculation_method].
  rewrite <- Hsign.
  split_and!; try done; try (by destruct (is_total_loss r)).
  - apply float_abs_not_negative.
  - case_bool_decide; [done |]. split; [done | by intros ->].
Qed.

Lemma every_decision_is_explained_witness :
  ∃ r v report,
    calculate_total_loss 0 "1HGBH41JXMN109186" "commercial"
      (Num (of_Z 20000)) (Num (of_Z 5000)) (Num (of_Z 13500)) "client" false
    = Ok (Some r, v)
    ∧ generate_explanation r = Some report
    ∧ x_threshold_heading report = "Threshold (70%):"
    ∧ x_calculation_method report
      = PercentOfPolicyValue (float_mul (of_ratio 65 100) (of_Z 100))
    ∧ x_decision report = "TOTAL LOSS".
Proof.
  assert (∃ r v,
            calculate_total_loss 0 "1HGBH41JXMN109186" "commercial"
              (Num (of_Z 20000)) (Num (of_Z 5000)) (Num (of_Z 13500))
              "client" false = Ok (Some r, v)
            ∧ is_total_loss r = true
            ∧ calculation_method r
              = PercentOfPolicyValue (float_mul (of_ratio 65 100) (of_Z 100)))
    as (r & v & Hr & Htotal & Hmethod).
  { eexists _, _. split; [vm_compute; reflexivity |]. split; reflexivity. }
  destruct (every_decision_is_explained _ _ _ _ _ _ _ _ r v Hr)
    as (report & Hreport & _ & Hdecision & _ & _ & _ & _ & _ & _ & Hheading
        & _).
  exists r, v, report. split_and!; [done | done | done | | by apply Hdecision].
  unfold generate_explanation in Hreport.
  destruct (getitem config.LOSS_TYPES (loss_type r)); [| done].
  injection Hreport as <-. exact Hmethod.
Defined.

Lemma generate_explanation_Some r :
  loss_type r = "client" ∨ loss_type r = "third_party" →
  ∃ report, generate_explanation r = Some report.
Proof.
  intros Hloss. unfold generate_explanation.
  destruct Hloss as [-> | ->]; by eexists.
Qed.

Lemma stored_decisions_init now f :
  stored_decisions (data_storage.DecisionStorage_init now f)
  = stored_decisions f.
Proof. by destruct f. Qed.

(** X27. How a single assessment ends.  [run_assessment] never calls a
    method on a missing result and never fails to explain a decision.  When
    the validator raises, the run raises the same exception; when the
    outcome has an error, the run shows the summary and leaves the store
    untouched; when the outcome is valid and the loss type is one of the
    two, the run prints the warnings and the report of the decision and,
    unless saving is switched off, appends exactly one record to the store,
    holding the dictionary of that decision under the identifier with the
    next number; with a loss type spelled otherwise the run raises
    ValueError. *)
Theorem run_assessment_outcomes
    (now : Z) (now_iso stamp now_stored : string)
    (args : main.assessment_args) (f : data_storage.file) :
  (main.run_assessment now now_iso stamp now_stored args f).1
  ≠ main.AttributeErrorOnNone
  ∧ (main.run_assessment now now_iso stamp now_stored args f).1
    ≠ main.ExplanationKeyError
  ∧ match
      validate_total_loss_input (main.args_vin args)
        (main.args_policy_type args) (main.args_policy_value args)
        (main.args_salvage_value args) (main.args_repair_quote args)
        (main.args_loss_type args) None None
    with
    | Raise e =>
        main.run_assessment now now_iso stamp now_stored args f
        = (main.EngineRaised e, f)
    | Ok v =>
        if is_valid v then
          if bool_decide (main.args_loss_type args = "client"
                          ∨ main.args_loss_type args = "third_party") then
            ∃ r report output,
              calculate_total_loss now (main.args_vin args)
                (main.args_policy_type args) (main.args_policy_value args)
                (main.args_salvage_value args) (main.args_repair_quote args)
                (main.args_loss_type args) false = Ok (Some r, v)
              ∧ generate_explanation r = Some report
              ∧ (main.run_assessment now now_iso stamp now_stored args f).1
                = main.Assessed (warnings v) report
                    (if main.args_no_save args then None
                     else Some (decision_id_of stamp
                                  (length (stored_decisions f) + 1)))
                    output
              ∧ (if main.args_no_save args then
                   (main.run_assessment now now_iso stamp now_stored args f).2
                   = f
                 else
                   stored_decisions
                     (main.run_assessment now now_iso stamp now_stored args
                        f).2
                   = stored_decisions f ++
                     [ {| data_storage.id :=
                            decision_id_of stamp
                              (length (stored_decisions f) + 1);
                          data_storage.stored_at := now_stored;
                          data_storage.data := to_dict r |} ])
          else
            main.run_assessment now now_iso stamp now_stored args f
            = (main.EngineRaised
                 (ValueError
                    ("Invalid loss type: " +:+ main.args_loss_type args)), f)
        else
          main.run_assessment now now_iso stamp now_stored args f
          = (main.ValidationFailed (get_summary v), f)
    end.
Proof.
  destruct args as [vin pt pv sv rq loss output format no_save].
  cbn [main.args_vin main.args_policy_type main.args_policy_value
       main.args_salvage_value main.args_repair_quote main.args_loss_type
       main.args_no_save].
  unfold main.run_assessment.
  cbn [main.args_vin main.args_policy_type main.args_policy_value
       main.args_salvage_value main.args_repair_quote main.args_loss_type
       main.args_no_save main.args_output main.args_format].
  destruct (validate_total_loss_input vin pt pv sv rq loss None None)
    as [v | e] eqn:Hv.
  - destruct (is_valid v) eqn:Hvalid.
    + destruct (valid_outcome_numbers _ _ _ _ _ _ _ Hv Hvalid)
        as (p & s & q & -> & -> & ->).
      destruct (bool_decide (loss = "client" ∨ loss = "third_party"))
        eqn:Hloss.
      * apply bool_decide_eq_true in Hloss.
        destruct (calculate_total_loss_decides now vin pt p s q loss false v)
          as (r & Hr & _); [done | done |].
        rewrite Hr. cbn [negb]. rewrite Hvalid. cbn [negb].
        destruct (calculate_total_loss_Some _ _ _ _ _ _ _ _ _ _ Hr)
          as (p' & s' & q' & _ & _ & _ & _ & _ & _ & _ & _ & Hlt & _).
        destruct (generate_explanation_Some r) as [report Hreport].
        { by rewrite Hlt. }
        rewrite Hreport. destruct no_save; cbn [negb].
        -- split_and!; [done | done |].
           eexists r, report, _. split_and!; [done | done | reflexivity | done].
        -- destruct (data_storage.save_decision now_iso stamp now_stored
                       (to_dict r)
                       (data_storage.DecisionStorage_init now_iso f))
             as [decision_id f'] eqn:Hsave.
           pose proof (save_decision_id now_iso stamp now_stored (to_dict r)
                         (data_storage.DecisionStorage_init now_iso f))
             as Hid.
           pose proof (stored_decisions_save now_iso stamp now_stored
                         (to_dict r)
                         (data_storage.DecisionStorage_init now_iso f))
             as Hstored.
           rewrite Hsave, stored_decisions_init in Hid, Hstored.
           cbn [fst snd] in Hid, Hstored. subst decision_id.
           split_and!; [done | done |].
           eexists r, report, _.
           split_and!; [done | done | reflexivity | exact Hstored].
      * apply bool_decide_eq_false in Hloss.
        rewrite (unknown_loss_type_raises now vin pt p s q loss false v)
          by done.
        done.
    + rewrite (failed_validation_yields_no_decision _ _ _ _ _ _ _ _ Hv Hvalid).
      cbn [negb]. rewrite Hvalid. done.
  - rewrite (validation_exception_propagates _ _ _ _ _ _ _ _ Hv). done.
Qed.

(** ** The most recent decisions *)









(** ** The contact fields *)

Lemma elem_of_optional (b : bool) (x y : string) :
  x ∈ (if b then [] else [y]) ↔ b = false ∧ x = y.
Proof.
  destruct b.
  - split; [by intros ?%elem_of_nil | by intros [? _]].
  - rewrite list_elem_of_singleton. tauto.
Qed.

Lemma elem_of_optional' (b : bool) (x y : string) :
  x ∈ (if b then [y] else []) ↔ b = true ∧ x = y.
Proof.
  destruct b.
  - rewrite list_elem_of_singleton. tauto.
  - split; [by intros ?%elem_of_nil | by intros [? _]].
Qed.

Lemma contact_fields_expected vin pt pv sv rq loss email phone :
  ("owner_email" ∈ expected_error_fields vin pt pv sv rq loss email phone
   ↔ present_and_invalid validate_email email = true)
  ∧ ("owner_phone" ∈ expected_error_fields vin pt pv sv rq loss email phone
     ↔ present_and_invalid validate_phone phone = true).
Proof.
  unfold expected_error_fields.
  assert (∀ x,
            x ∈ (if accepted (salvage_value_check sv)
                 then if salvage_exceeds_policy sv pv
                      then ["salvage_value"] else []
                 else ["salvage_value"])
            → x = "salvage_value") as Hsalvage.
  { intros x. destruct (accepted _); [destruct (salvage_exceeds_policy _ _) |];
      first [ by intros ?%list_elem_of_singleton
            | by intros ?%elem_of_nil ]. }
  rewrite !elem_of_app, !elem_of_optional, !elem_of_optional'.
  split; split.
  - intros [[_ [=]] | [[_ [=]] | [[_ [=]] | [[_ [=]] | [H | [[_ [=]]
             | [[? _] | [_ [=]]]]]]]]]; [by apply Hsalvage in H | done].
  - intros H. do 6 right. by left.
  - intros [[_ [=]] | [[_ [=]] | [[_ [=]] | [[_ [=]] | [H | [[_ [=]]
             | [[_ [=]] | [? _]]]]]]]]; [by apply Hsalvage in H | done].
  - intros H. do 7 right. done.
Qed.

(** X29. The contact fields are optional.  An outcome of
    [validate_total_loss_input] has an error on owner_email exactly when an
    address is given, is not the empty string and, trimmed, does not read
    local@domain.tld; it has an error on owner_phone exactly when a number
    is given, is not the empty string and, without its white space, dashes
    and parentheses, is not an Australian number.  An absent or empty
    contact field is never an error. *)
Theorem contact_fields_are_checked_when_given
    (vin pt : string) (pv sv rq : any) (loss : string)
    (email phone : option string) (v : ValidationResult) :
  validate_total_loss_input vin pt pv sv rq loss email phone = Ok v →
  ("owner_email" ∈ error_fields v
   ↔ ∃ address, email = Some address ∧ address ≠ ""
                ∧ ¬ email_shape (strip address))
  ∧ ("owner_phone" ∈ error_fields v
     ↔ ∃ number, phone = Some number ∧ number ≠ ""
                 ∧ ¬ phone_shape (phone_digits number)).
Proof.
  intros Hv.
  destruct (validate_total_loss_input_fields _ _ _ _ _ _ _ _ _ Hv) as [He _].
  destruct (contact_fields_expected vin pt pv sv rq loss email phone)
    as [Hemail Hphone].
  rewrite He, Hemail, Hphone. unfold present_and_invalid. split.
  - destruct email as [address |]; [| split; [done | by intros (? & [=] & _)]].
    rewrite andb_true_iff, !negb_true_iff, bool_decide_eq_false.
    rewrite <- not_true_iff_false.
    assert (address ≠ "" →
            validate_email address = true ↔ email_shape (strip address))
      as Hshape.
    { intros Hne. unfold validate_email.
      rewrite bool_decide_eq_false_2 by done.
      rewrite re_match_trimmed by apply strip_trimmed.
      apply email_pattern_shape. }
    split.
    + intros [Hne Hinv]. exists address. split_and!; [done | done |].
      by rewrite <- Hshape.
    + intros (a & [= <-] & Hne & Hinv). split; [done |].
      by rewrite Hshape.
  - destruct phone as [number |]; [| split; [done | by intros (? & [=] & _)]].
    rewrite andb_true_iff, !negb_true_iff, bool_decide_eq_false.
    rewrite <- not_true_iff_false.
    assert (number ≠ "" →
            validate_phone number = true ↔ phone_shape (phone_digits number))
      as Hshape.
    { intros Hne. unfold validate_phone. fold (phone_digits number).
      rewrite bool_decide_eq_false_2 by done.
      apply phone_patterns_on_digits. }
    split.
    + intros [Hne Hinv]. exists number. split_and!; [done | done |].
      by rewrite <- Hshape.
    + intros (a & [= <-] & Hne & Hinv). split; [done |].
      by rewrite Hshape.
Qed.

Lemma contact_fields_are_checked_when_given_witness :
  ∃ v, validate_total_loss_input "1HGBH41JXMN109186" "comprehensive"
         (Num (of_Z 25000)) (Num (of_Z 5000)) (Num (of_Z 20000)) "client"
         (Some "owner@example.com") (Some "0412 345 678") = Ok v
       ∧ ¬ (∃ address, Some "owner@example.com" = Some address
                       ∧ address ≠ "" ∧ ¬ email_shape (strip address)).
Proof.
  assert (∃ v, validate_total_loss_input "1HGBH41JXMN109186" "comprehensive"
                 (Num (of_Z 25000)) (Num (of_Z 5000)) (Num (of_Z 20000))
                 "client" (Some "owner@example.com") (Some "0412 345 678")
               = Ok v ∧ "owner_email" ∉ error_fields v) as (v & Hv & Hno).
  { eexists. split; [vm_compute; reflexivity |].
    apply (bool_decide_eq_false_1 _). reflexivity. }
  exists v. split; [exact Hv |].
  intros Hshape. apply Hno.
  by apply (contact_fields_are_checked_when_given _ _ _ _ _ _ _ _ v Hv).
Defined.
